(** * llm-typed: the prompt client ([chatgpt.ts], [config.ts]) and its
      demonstration ([example.ts])

    A shallow embedding of the request / response / validation round trip
    of [query] and [send], at the level of the JavaScript values the
    program handles, followed by the properties of the specification and
    by further properties of the code.

    Layout:
    - [JS]: values, objects with ordered own properties, spread,
      truthiness, number literals;
    - [JSON]: [JSON.stringify] (compact and with indent 2) and [JSON.parse];
    - [Zod]: the combinators of the zod library the program calls;
    - [Config]: [config.ts];
    - [Effects]: console, network, exceptions and process exit, as a monad
      over the observable world;
    - [ChatGpt]: the schemas, the inferred types, [send] and [query];
    - the definitions the statements use, and [Example]: the script of
      [example.ts];
    - the theorems: the validated response, the runs of [send] and
      [query], objects and their text, [JSON.parse] after
      [JSON.stringify], the shape of the envelope, and the properties C1
      to C10;
    - further theorems: JSON text of values that hold [undefined], what
      [JSON.parse] returns, indented JSON text, what a schema returns,
      and the properties X1 to X15 of [query], [send], the request on the
      wire, [config.ts] and [example.ts].

    A string is the sequence of its bytes (UTF-8 text). *)

From Stdlib Require Import List String Ascii ZArith Bool Lia.
Import ListNotations.
Local Open Scope string_scope.
Local Open Scope Z_scope.

(* ===================================================================== *)
(** ** JavaScript values *)
(* ===================================================================== *)

Module JS.

(** A number is carried as its decimal literal: a sign, the digits of
    the integer part and the digits of the fraction, as in [-12.5].  The
    program never computes with numbers; it reads them from JSON text,
    tests them for truthiness and prints them back. *)
Record number := {
  negative : bool;
  integer_digits : string;
  fraction_digits : string
}.

Definition code (c : ascii) : N := N_of_ascii c.

Definition is_digit (c : ascii) : bool := ((48 <=? code c) && (code c <=? 57))%N.

Fixpoint all_digits (s : string) : bool :=
  match s with
  | EmptyString => true
  | String c r => is_digit c && all_digits r
  end.

(** [007] is [7], and no digit at all is [0]. *)
Fixpoint strip_leading_zeros (s : string) : string :=
  match s with
  | EmptyString => "0"
  | String c r => if (code c =? 48)%N then strip_leading_zeros r else s
  end.

(** [.500] is [.5], and [.0] is no fraction. *)
Fixpoint strip_trailing_zeros (s : string) : string :=
  match s with
  | EmptyString => ""
  | String c r =>
      match strip_trailing_zeros r with
      | EmptyString => if (code c =? 48)%N then "" else String c ""
      | r' => String c r'
      end
  end.

(** The number with these digits, in the one form a number is kept in:
    no leading zero, no trailing zero, and no sign on zero (JavaScript
    prints its negative zero as [0] too). *)
Definition normalize (neg : bool) (ints fracs : string) : number :=
  let i := strip_leading_zeros ints in
  let f := strip_trailing_zeros fracs in
  {| negative := neg && negb (String.eqb i "0" && String.eqb f "");
     integer_digits := i;
     fraction_digits := f |}.

Definition number_same (a b : number) : bool :=
  Bool.eqb (negative a) (negative b) &&
  String.eqb (integer_digits a) (integer_digits b) &&
  String.eqb (fraction_digits a) (fraction_digits b).

Definition normal (n : number) : number :=
  normalize (negative n) (integer_digits n) (fraction_digits n).

(** A number in the form [normalize] gives. *)
Definition number_ok (n : number) : bool :=
  all_digits (integer_digits n) && all_digits (fraction_digits n) &&
  number_same (normal n) n.

Definition number_eqb (a b : number) : bool := number_same (normal a) (normal b).

Definition is_zero (n : number) : bool :=
  String.eqb (integer_digits (normal n)) "0" &&
  String.eqb (fraction_digits (normal n)) "".

Definition is_negative (n : number) : bool := negative (normal n).

Definition is_integer (n : number) : bool :=
  String.eqb (fraction_digits (normal n)) "".

(** Values.  An object is the ordered list of its own enumerable
    properties; a property may hold [undefined]. *)
#[local] Unset Elimination Schemes.
Inductive value :=
| VUndefined
| VNull
| VBool (b : bool)
| VNum (n : number)
| VStr (s : string)
| VArr (elems : list value)
| VObj (props : list (string * value)).
#[local] Set Elimination Schemes.

Definition object := list (string * value).

(** Induction over values that reaches inside arrays and objects. *)
Section value_induction.

Variable P : value -> Prop.
Hypothesis Hundef : P VUndefined.
Hypothesis Hnull : P VNull.
Hypothesis Hbool : forall b, P (VBool b).
Hypothesis Hnum : forall n, P (VNum n).
Hypothesis Hstr : forall s, P (VStr s).
Hypothesis Harr : forall l, Forall P l -> P (VArr l).
Hypothesis Hobj : forall ps, Forall (fun kv => P (snd kv)) ps -> P (VObj ps).

Fixpoint value_ind' (v : value) : P v :=
  match v with
  | VUndefined => Hundef
  | VNull => Hnull
  | VBool b => Hbool b
  | VNum n => Hnum n
  | VStr s => Hstr s
  | VArr l =>
      Harr l ((fix all (l : list value) : Forall P l :=
                 match l with
                 | [] => Forall_nil P
                 | x :: r => Forall_cons x (value_ind' x) (all r)
                 end) l)
  | VObj ps =>
      Hobj ps ((fix all (ps : object) : Forall (fun kv => P (snd kv)) ps :=
                  match ps with
                  | [] => Forall_nil _
                  | kv :: r => Forall_cons kv (value_ind' (snd kv)) (all r)
                  end) ps)
  end.

End value_induction.

(** [o[k]] on the property list of an object. *)
Fixpoint obj_get (o : object) (k : string) : option value :=
  match o with
  | [] => None
  | (k', v) :: r => if String.eqb k' k then Some v else obj_get r k
  end.

(** [k in o] *)
Definition obj_has (o : object) (k : string) : bool :=
  match obj_get o k with Some _ => true | None => false end.

(** [o[k] = v]: an existing property keeps its place, a new one goes last. *)
Fixpoint obj_set (o : object) (k : string) (v : value) : object :=
  match o with
  | [] => [(k, v)]
  | (k', v') :: r =>
      if String.eqb k' k then (k, v) :: r else (k', v') :: obj_set r k v
  end.

(** [{...target, ...source}]: the properties of [source] are assigned to
    a copy of [target] in order. *)
Definition obj_spread (target source : object) : object :=
  fold_left (fun acc kv => obj_set acc (fst kv) (snd kv)) source target.

(** Reading a member [v[k]] of any value: a [TypeError] on [undefined] and
    [null] (rendered [None]); [undefined] when the property is missing.
    The program reads only the members [error], [choices],
    [finish_reason], [message] and [content], none of which a primitive
    or an array inherits from its prototype. *)
Definition member (v : value) (k : string) : option value :=
  match v with
  | VUndefined | VNull => None
  | VObj o => Some (match obj_get o k with Some x => x | None => VUndefined end)
  | _ => Some VUndefined
  end.

(** [a[i]] *)
Definition index (v : value) (i : nat) : value :=
  match v with
  | VArr l => nth i l VUndefined
  | _ => VUndefined
  end.

(** ToBoolean *)
Definition truthy (v : value) : bool :=
  match v with
  | VUndefined | VNull => false
  | VBool b => b
  | VNum n => negb (is_zero n)
  | VStr s => negb (String.eqb s "")
  | VArr _ | VObj _ => true
  end.

(** [a === b] between a value and a string literal. *)
Definition strict_eq_str (v : value) (s : string) : bool :=
  match v with
  | VStr s' => String.eqb s' s
  | _ => false
  end.

Definition digit_char (n : N) : ascii :=
  match n with
  | 0 => "0" | 1 => "1" | 2 => "2" | 3 => "3" | 4 => "4" | 5 => "5"
  | 6 => "6" | 7 => "7" | 8 => "8" | 9 => "9" | 10 => "a" | 11 => "b"
  | 12 => "c" | 13 => "d" | 14 => "e" | _ => "f"
  end%N%char.

Fixpoint zeros (n : nat) : string :=
  match n with
  | O => ""
  | S n' => String "0"%char (zeros n')
  end.

(** The fraction of a number as it is printed: a point and the digits,
    or nothing. *)
Definition fraction_text (f : string) : string :=
  match f with
  | EmptyString => ""
  | String _ _ => "." ++ f
  end.

(** A number in plain decimal notation, as JavaScript prints the numbers
    of ordinary size: [0], [-1], [0.7], [1.5].  (JavaScript turns to the
    exponent notation from 1e21 up and below 1e-6; such numbers are
    outside this model.) *)
Definition number_to_string (n : number) : string :=
  (if negative n then "-" else "") ++
  integer_digits n ++
  fraction_text (fraction_digits n).

(** The leading decimal digits of [s], and what follows them. *)
Fixpoint read_digits (s : string) : string * string :=
  match s with
  | String c r =>
      if is_digit c
      then let (ds, r') := read_digits r in (String c ds, r')
      else ("", s)
  | EmptyString => ("", s)
  end.

Fixpoint digits_value (ds : string) (acc : nat) : nat :=
  match ds with
  | EmptyString => acc
  | String c r => digits_value r (10 * acc + N.to_nat (code c - 48))%nat
  end.

(** The digits of [ints.fracs] times ten to the power [e] (or [-e]). *)
Definition apply_exponent (ints fracs : string) (eneg : bool) (e : nat)
  : string * string :=
  if eneg then
    let padded := zeros e ++ ints in
    let k := (String.length padded - e)%nat in
    (substring 0 k padded, substring k e padded ++ fracs)
  else
    let padded := fracs ++ zeros e in
    (ints ++ substring 0 e padded, substring e (String.length padded - e) padded).

(** The number literal at the head of [s], after its sign: an integer
    part without leading zero, an optional fraction, an optional
    exponent. *)
Definition parse_unsigned (neg : bool) (s : string) : option (number * string) :=
  let (ints, s2) := read_digits s in
  if negb (String.eqb (strip_leading_zeros ints) ints) then None else
  let frac :=
    match s2 with
    | String c r =>
        if (code c =? 46)%N then
          match read_digits r with
          | (EmptyString, _) => None
          | (fs, r') => Some (fs, r')
          end
        else Some ("", s2)
    | EmptyString => Some ("", s2)
    end in
  match frac with
  | None => None
  | Some (fracs, s3) =>
      match s3 with
      | String c r =>
          if ((code c =? 101) || (code c =? 69))%N then
            let (eneg, r1) :=
              match r with
              | String c' r' =>
                  if (code c' =? 45)%N then (true, r')
                  else if (code c' =? 43)%N then (false, r')
                  else (false, r)
              | EmptyString => (false, r)
              end in
            match read_digits r1 with
            | (EmptyString, _) => None
            | (es, r2) =>
                let (i, f) := apply_exponent ints fracs eneg (digits_value es 0) in
                Some (normalize neg i f, r2)
            end
          else Some (normalize neg ints fracs, s3)
      | EmptyString => Some (normalize neg ints fracs, s3)
      end
  end.

(** The number literal at the head of [s], with its optional minus. *)
Definition parse_number (s : string) : option (number * string) :=
  match s with
  | String c r => if (code c =? 45)%N then parse_unsigned true r else parse_unsigned false s
  | EmptyString => None
  end.

(** The number a literal denotes: [num "0.7"]. *)
Definition num (literal : string) : number :=
  match parse_number literal with
  | Some (n, _) => n
  | None => normalize false "" ""
  end.

Fixpoint join (sep : string) (l : list string) : string :=
  match l with
  | [] => ""
  | [x] => x
  | x :: r => x ++ sep ++ join sep r
  end.

(** ToString, as a template literal applies it. *)
Fixpoint ToString (v : value) : string :=
  match v with
  | VUndefined => "undefined"
  | VNull => "null"
  | VBool true => "true"
  | VBool false => "false"
  | VNum n => number_to_string n
  | VStr s => s
  | VArr l =>
      join "," (map (fun x => match x with
                              | VUndefined | VNull => ""
                              | _ => ToString x
                              end) l)
  | VObj _ => "[object Object]"
  end.

(** Deep equality of two values: arrays element by element, objects by
    key whatever the order of the keys, numbers by value. *)
Fixpoint deep_equal (a b : value) : bool :=
  match a, b with
  | VUndefined, VUndefined => true
  | VNull, VNull => true
  | VBool x, VBool y => Bool.eqb x y
  | VNum x, VNum y => number_eqb x y
  | VStr x, VStr y => String.eqb x y
  | VArr xs, VArr ys =>
      (fix all (xs ys : list value) : bool :=
         match xs, ys with
         | [], [] => true
         | x :: xs', y :: ys' => deep_equal x y && all xs' ys'
         | _, _ => false
         end) xs ys
  | VObj ps, VObj qs =>
      (Nat.eqb (List.length ps) (List.length qs) &&
       (fix all (ps : object) : bool :=
          match ps with
          | [] => true
          | (k, x) :: ps' =>
              match obj_get qs k with
              | Some y => deep_equal x y && all ps'
              | None => false
              end
          end) ps)%bool
  | _, _ => false
  end.

End JS.
Import JS.

(* ===================================================================== *)
(** ** JSON text *)
(* ===================================================================== *)

Module JSON.

Definition dquote : string := String (ascii_of_N 34) "".
Definition newline : string := String (ascii_of_N 10) "".

(** One character of a string literal, escaped as [JSON.stringify] does:
    the quote, the backslash and the control characters. *)
Definition escape_char (c : ascii) : string :=
  let n := N_of_ascii c in
  if (n =? 34)%N then "\" ++ dquote
  else if (n =? 92)%N then "\\"
  else if (n =? 8)%N then "\b"
  else if (n =? 9)%N then "\t"
  else if (n =? 10)%N then "\n"
  else if (n =? 12)%N then "\f"
  else if (n =? 13)%N then "\r"
  else if (n <? 32)%N then
    "\u00" ++ String (digit_char (n / 16)) (String (digit_char (n mod 16)) "")
  else String c "".

Fixpoint escape (s : string) : string :=
  match s with
  | EmptyString => ""
  | String c r => escape_char c ++ escape r
  end.

Definition quote (s : string) : string := dquote ++ escape s ++ dquote.

(** [JSON.stringify(v)] below the top level: a property holding
    [undefined] is left out, an array element holding it prints [null]. *)
Fixpoint serialize (v : value) : string :=
  match v with
  | VUndefined | VNull => "null"
  | VBool true => "true"
  | VBool false => "false"
  | VNum n => number_to_string n
  | VStr s => quote s
  | VArr l => "[" ++ join "," (map serialize l) ++ "]"
  | VObj ps =>
      "{" ++ join ","
        ((fix members (ps : object) : list string :=
            match ps with
            | [] => []
            | (_, VUndefined) :: r => members r
            | (k, x) :: r => (quote k ++ ":" ++ serialize x) :: members r
            end) ps) ++ "}"
  end.

(** [JSON.stringify(v)].  Of [undefined] it is [undefined], which a
    template literal prints as such; the program serialises objects and
    parsed JSON only. *)
Definition JSON_stringify (v : value) : string :=
  match v with
  | VUndefined => "undefined"
  | _ => serialize v
  end.

(** [JSON.stringify(v, null, 2)] below the top level, at indentation [ind]. *)
Fixpoint serialize_indent (ind : string) (v : value) : string :=
  let ind' := ind ++ "  " in
  match v with
  | VUndefined | VNull => "null"
  | VBool true => "true"
  | VBool false => "false"
  | VNum n => number_to_string n
  | VStr s => quote s
  | VArr l =>
      match l with
      | [] => "[]"
      | _ => "[" ++ newline ++ ind' ++
             join ("," ++ newline ++ ind') (map (serialize_indent ind') l) ++
             newline ++ ind ++ "]"
      end
  | VObj ps =>
      match
        (fix members (ps : object) : list string :=
           match ps with
           | [] => []
           | (_, VUndefined) :: r => members r
           | (k, x) :: r => (quote k ++ ": " ++ serialize_indent ind' x) :: members r
           end) ps
      with
      | [] => "{}"
      | ms => "{" ++ newline ++ ind' ++ join ("," ++ newline ++ ind') ms ++
              newline ++ ind ++ "}"
      end
  end.

Definition JSON_stringify_indent2 (v : value) : string :=
  match v with
  | VUndefined => "undefined"
  | _ => serialize_indent "" v
  end.

(** *** [JSON.parse] *)

Definition is_ws (c : ascii) : bool :=
  ((code c =? 32) || (code c =? 9) || (code c =? 10) || (code c =? 13))%N.

Fixpoint skip_ws (s : string) : string :=
  match s with
  | String c r => if is_ws c then skip_ws r else s
  | EmptyString => s
  end.

(** The rest of [s] after the literal [p], when [s] starts with it. *)
Fixpoint strip_prefix (p s : string) : option string :=
  match p, s with
  | EmptyString, _ => Some s
  | String a p', String b s' => if Ascii.eqb a b then strip_prefix p' s' else None
  | _, _ => None
  end.

Definition hex_value (c : ascii) : option N :=
  let n := code c in
  if is_digit c then Some (n - 48)%N
  else if ((97 <=? n) && (n <=? 102))%N then Some (n - 87)%N
  else if ((65 <=? n) && (n <=? 70))%N then Some (n - 55)%N
  else None.

(** The UTF-8 bytes of a code unit below 0x10000. *)
Definition utf8 (cp : N) : string :=
  let byte n := String (ascii_of_N n) "" in
  if (cp <? 128)%N then byte cp
  else if (cp <? 2048)%N then byte (192 + cp / 64)%N ++ byte (128 + cp mod 64)%N
  else byte (224 + cp / 4096)%N ++ byte (128 + (cp / 64) mod 64)%N
       ++ byte (128 + cp mod 64)%N.

(** The body of a string literal, after its opening quote, up to and
    including the closing one.  A [\u] escape yields the UTF-8 bytes of
    its code unit. *)
Fixpoint parse_string (s : string) : option (string * string) :=
  match s with
  | EmptyString => None
  | String c r =>
      if (code c =? 34)%N then Some ("", r)
      else if (code c =? 92)%N then
        match r with
        | String e r1 =>
            let simple (x : N) :=
              match parse_string r1 with
              | Some (str, rest) => Some (String (ascii_of_N x) str, rest)
              | None => None
              end in
            if (code e =? 34)%N then simple 34%N
            else if (code e =? 92)%N then simple 92%N
            else if (code e =? 47)%N then simple 47%N
            else if (code e =? 98)%N then simple 8%N
            else if (code e =? 102)%N then simple 12%N
            else if (code e =? 110)%N then simple 10%N
            else if (code e =? 114)%N then simple 13%N
            else if (code e =? 116)%N then simple 9%N
            else if (code e =? 117)%N then
              match r1 with
              | String h1 (String h2 (String h3 (String h4 r2))) =>
                  match hex_value h1, hex_value h2, hex_value h3, hex_value h4 with
                  | Some a, Some b, Some c', Some d =>
                      match parse_string r2 with
                      | Some (str, rest) =>
                          Some (utf8 (((a * 16 + b) * 16 + c') * 16 + d)%N ++ str, rest)
                      | None => None
                      end
                  | _, _, _, _ => None
                  end
              | _ => None
              end
            else None
        | EmptyString => None
        end
      else if (code c <? 32)%N then None
      else
        match parse_string r with
        | Some (str, rest) => Some (String c str, rest)
        | None => None
        end
  end.

(** A value at the head of [s]; [parse_elements] and [parse_members] read
    the rest of an array or an object that is not empty.  A key given
    twice keeps its first place and its last value. *)
Fixpoint parse_value (fuel : nat) (s : string) : option (value * string) :=
  match fuel with
  | O => None
  | S f =>
      match skip_ws s with
      | EmptyString => None
      | String c r as s' =>
          if (code c =? 123)%N then
            match skip_ws r with
            | String c' r' =>
                if (code c' =? 125)%N then Some (VObj [], r')
                else match parse_members f r [] with
                     | Some (o, rest) => Some (VObj o, rest)
                     | None => None
                     end
            | EmptyString => None
            end
          else if (code c =? 91)%N then
            match skip_ws r with
            | String c' r' =>
                if (code c' =? 93)%N then Some (VArr [], r')
                else match parse_elements f r with
                     | Some (l, rest) => Some (VArr l, rest)
                     | None => None
                     end
            | EmptyString => None
            end
          else if (code c =? 34)%N then
            match parse_string r with
            | Some (str, rest) => Some (VStr str, rest)
            | None => None
            end
          else if is_digit c || (code c =? 45)%N then
            match parse_number s' with
            | Some (n, rest) => Some (VNum n, rest)
            | None => None
            end
          else
            match strip_prefix "null" s', strip_prefix "true" s', strip_prefix "false" s' with
            | Some rest, _, _ => Some (VNull, rest)
            | _, Some rest, _ => Some (VBool true, rest)
            | _, _, Some rest => Some (VBool false, rest)
            | _, _, _ => None
            end
      end
  end
with parse_elements (fuel : nat) (s : string) : option (list value * string) :=
  match fuel with
  | O => None
  | S f =>
      match parse_value f s with
      | Some (v, rest) =>
          match skip_ws rest with
          | String c r =>
              if (code c =? 93)%N then Some ([v], r)
              else if (code c =? 44)%N then
                match parse_elements f r with
                | Some (l, rest') => Some (v :: l, rest')
                | None => None
                end
              else None
          | EmptyString => None
          end
      | None => None
      end
  end
with parse_members (fuel : nat) (s : string) (acc : object) : option (object * string) :=
  match fuel with
  | O => None
  | S f =>
      match skip_ws s with
      | String q r =>
          if (code q =? 34)%N then
            match parse_string r with
            | Some (k, rest) =>
                match skip_ws rest with
                | String c r1 =>
                    if (code c =? 58)%N then
                      match parse_value f r1 with
                      | Some (v, rest1) =>
                          let acc' := obj_set acc k v in
                          match skip_ws rest1 with
                          | String c' r2 =>
                              if (code c' =? 125)%N then Some (acc', r2)
                              else if (code c' =? 44)%N then parse_members f r2 acc'
                              else None
                          | EmptyString => None
                          end
                      | None => None
                      end
                    else None
                | EmptyString => None
                end
            | None => None
            end
          else None
      | EmptyString => None
      end
  end.

(** [JSON.parse(text)]: [None] is the [SyntaxError]. *)
Definition JSON_parse (text : string) : option value :=
  match parse_value (S (S (String.length text))) text with
  | Some (v, rest) =>
      match skip_ws rest with
      | EmptyString => Some v
      | _ => None
      end
  | None => None
  end.

(** Writing JSON text in examples: every apostrophe stands for a double
    quote. *)
Fixpoint json_text (s : string) : string :=
  match s with
  | EmptyString => ""
  | String c r =>
      String (if (N_of_ascii c =? 39)%N then ascii_of_N 34 else c) (json_text r)
  end.

End JSON.
Import JSON.

(* ===================================================================== *)
(** ** The zod combinators the program uses *)
(* ===================================================================== *)

Module Zod.

(** [z.string()], [z.number()], [z.literal(s)], [t.optional()],
    [z.array(t)], [z.object(shape)], [z.union(options)] and
    [z.discriminatedUnion(key, options)]. *)
#[local] Unset Elimination Schemes.
Inductive ZodType :=
| z_string
| z_number
| z_literal (s : string)
| z_optional (t : ZodType)
| z_array (t : ZodType)
| z_object (shape : list (string * ZodType))
| z_union (options : list ZodType)
| z_discriminatedUnion (discriminator : string) (options : list ZodType).
#[local] Set Elimination Schemes.

Fixpoint shape_get (shape : list (string * ZodType)) (k : string) : option ZodType :=
  match shape with
  | [] => None
  | (k', t) :: r => if String.eqb k' k then Some t else shape_get r k
  end.

(** An option of a discriminated union is the one to apply when its
    literal under the discriminator key is the value found there. *)
Definition discriminates (key : string) (t : ZodType) (found : value) : bool :=
  match t with
  | z_object shape =>
      match shape_get shape key with
      | Some (z_literal s) => strict_eq_str found s
      | _ => false
      end
  | _ => false
  end.

Definition prop (data : object) (k : string) : value :=
  match obj_get data k with
  | Some x => x
  | None => VUndefined
  end.

Definition is_undefined (v : value) : bool :=
  match v with
  | VUndefined => true
  | _ => false
  end.

(** [t.parse(v)]: the parsed output, or [None] for the [ZodError].
    An object schema reads the keys of its shape, in the order of the
    shape, and drops every other key (zod's default for unknown keys);
    a union answers with its first option that accepts. *)
Fixpoint parse (t : ZodType) (v : value) {struct t} : option value :=
  match t with
  | z_string => match v with VStr _ => Some v | _ => None end
  | z_number => match v with VNum _ => Some v | _ => None end
  | z_literal s => if strict_eq_str v s then Some v else None
  | z_optional t' =>
      match v with
      | VUndefined => Some VUndefined
      | _ => parse t' v
      end
  | z_array t' =>
      match v with
      | VArr l =>
          option_map VArr
            ((fix each (l : list value) : option (list value) :=
                match l with
                | [] => Some []
                | x :: r =>
                    match parse t' x, each r with
                    | Some y, Some ys => Some (y :: ys)
                    | _, _ => None
                    end
                end) l)
      | _ => None
      end
  | z_object shape =>
      match v with
      | VObj data =>
          option_map VObj
            ((fix fields (shape : list (string * ZodType)) : option object :=
                match shape with
                | [] => Some []
                | (k, t') :: r =>
                    match parse t' (prop data k), fields r with
                    | Some y, Some ys =>
                        Some (if obj_has data k || negb (is_undefined y)
                              then (k, y) :: ys else ys)
                    | _, _ => None
                    end
                end) shape)
      | _ => None
      end
  | z_union options =>
      (fix first (options : list ZodType) : option value :=
         match options with
         | [] => None
         | t' :: r =>
             match parse t' v with
             | Some y => Some y
             | None => first r
             end
         end) options
  | z_discriminatedUnion key options =>
      match v with
      | VObj data =>
          (fix pick (options : list ZodType) : option value :=
             match options with
             | [] => None
             | t' :: r =>
                 if discriminates key t' (prop data key) then parse t' v else pick r
             end) options
      | _ => None
      end
  end.

(** What [query] asks of a caller's schema, a [ZodSchema<T>]: to parse a
    value, and to be described as a JSON schema by [zodToJsonSchema]. *)
Record ZodSchema := {
  schema_parse : value -> option value;
  zodToJsonSchema : value
}.

Definition schema_of (t : ZodType) (described : value) : ZodSchema :=
  {| schema_parse := parse t; zodToJsonSchema := described |}.

End Zod.
Import Zod.

(* ===================================================================== *)
(** ** [config.ts] *)
(* ===================================================================== *)

Module Config.

Definition OPENAI_API_KEY_VAR_NAME : string := "OPENAI_API_KEY".

(** [OPENAI_API_KEY], read once from the environment when the module
    loads: [inl] is the message of the error thrown there. *)
Definition OPENAI_API_KEY (env : string -> option string) : string + string :=
  match env OPENAI_API_KEY_VAR_NAME with
  | Some keyFromEnv =>
      if truthy (VStr keyFromEnv) then inr keyFromEnv
      else inl ("Provide " ++ OPENAI_API_KEY_VAR_NAME ++ " as an env var")
  | None => inl ("Provide " ++ OPENAI_API_KEY_VAR_NAME ++ " as an env var")
  end.

Definition REQUEST_TIMEOUT_MS : Z := 10000.
Definition DEFAULT_TEMPERATURE : number := num "0".

End Config.
Import Config.

(* ===================================================================== *)
(** ** Effects: console, network, exceptions, process exit *)
(* ===================================================================== *)

Module Effects.

(** What an asynchronous call can end in: its promise is fulfilled, it is
    rejected with an exception, or the process has exited meanwhile. *)
Inductive Exn :=
| FetchError                      (* the request failed or timed out *)
| SyntaxError                     (* JSON.parse, res.json() *)
| TypeError                       (* a member of undefined or null *)
| ZodError                        (* schema.parse *)
| OpenAiError (message : string).

Inductive Outcome (A : Type) :=
| Returned (a : A)
| Thrown (e : Exn)
| Exited (status : Z).
Arguments Returned {A} a.
Arguments Thrown {A} e.
Arguments Exited {A} status.

Inductive LogEntry :=
| warn (text : string)            (* console.warn *)
| error (text : string).          (* console.error *)

Record Request := {
  url : string;
  method : string;
  headers : list (string * string);
  body : string;
  timeout_ms : Z                  (* AbortSignal.timeout *)
}.

(** What the network answers to a request: nothing (failure, timeout), a
    body that is not JSON, or a body decoded by [res.json()]. *)
Inductive FetchResult :=
| network_failure
| invalid_json_body
| json_body (json : value).

(** The observable world: what was printed and what was sent, oldest
    first. *)
Record World := {
  console : list LogEntry;
  sent : list Request
}.

Definition start : World := {| console := []; sent := [] |}.

Definition M (A : Type) : Type := World -> Outcome A * World.

Definition ret {A} (a : A) : M A := fun w => (Returned a, w).

Definition bind {A B} (m : M A) (k : A -> M B) : M B :=
  fun w =>
    match m w with
    | (Returned a, w') => k a w'
    | (Thrown e, w') => (Thrown e, w')
    | (Exited st, w') => (Exited st, w')
    end.

Definition throw {A} (e : Exn) : M A := fun w => (Thrown e, w).

(** [try { m } catch (e) { handler e }]: an exit is not caught. *)
Definition try_catch {A} (m : M A) (handler : Exn -> M A) : M A :=
  fun w =>
    match m w with
    | (Thrown e, w') => handler e w'
    | r => r
    end.

Definition console_warn (text : string) : M unit :=
  fun w => (Returned tt, {| console := console w ++ [warn text]; sent := sent w |}).

Definition console_error (text : string) : M unit :=
  fun w => (Returned tt, {| console := console w ++ [error text]; sent := sent w |}).

(** [process.exit(status)] does not return. *)
Definition process_exit {A} (status : Z) : M A := fun w => (Exited status, w).

(** A pure computation that may throw. *)
Definition lift {A} (e : Exn) (o : option A) : M A :=
  match o with
  | Some a => ret a
  | None => throw e
  end.

Declare Scope js_scope.
Delimit Scope js_scope with js.
Notation "x <- m ;; k" := (bind m (fun x => k))
  (at level 100, m at next level, right associativity) : js_scope.
Notation "m ;;; k" := (bind m (fun _ => k))
  (at level 100, right associativity) : js_scope.

End Effects.
Import Effects.

(* ===================================================================== *)
(** ** [chatgpt.ts] *)
(* ===================================================================== *)

Module ChatGpt.

Local Open Scope js_scope.

(** [DEFAULT_REQUEST_CONFIG] *)
Definition DEFAULT_REQUEST_CONFIG : object :=
  [("model", VStr "gpt-4-1106-preview");
   ("temperature", VNum DEFAULT_TEMPERATURE)].

Definition messageSystemSchema : ZodType :=
  z_object [("role", z_literal "system");
            ("content", z_string)].

Definition messageSchema : ZodType :=
  z_discriminatedUnion "role" [
    messageSystemSchema;
    z_object [("role", z_literal "assistant");
              ("content", z_string);
              ("tool_calls", z_optional z_string)];
    z_object [("role", z_literal "tool");
              ("content", z_string)];
    z_object [("role", z_literal "user");
              ("content", z_string)]
  ].

Definition usageSchema : ZodType :=
  z_object [("completion_tokens", z_number);
            ("prompt_tokens", z_number);
            ("total_tokens", z_number)].

Definition responseSchema : ZodType :=
  z_object [("id", z_string);
            ("model", z_string);
            ("object", z_literal "chat.completion");
            ("choices", z_array (z_object [
               ("message", messageSchema);
               ("finish_reason", z_union [
                  z_literal "stop";
                  z_literal "length";
                  z_literal "content_filter";
                  z_literal "tool_calls"
               ])
            ]));
            ("usage", usageSchema)].

(** An optional property of an inferred type: the key is missing, holds
    [undefined], or holds a value. *)
Inductive optional (A : Type) :=
| absent
| present_undefined
| present (a : A).
Arguments absent {A}.
Arguments present_undefined {A}.
Arguments present {A} a.

(** [Message], the type inferred from [messageSchema]. *)
Inductive Message :=
| system (content : string)
| assistant (content : string) (tool_calls : optional string)
| tool (content : string)
| user (content : string).

(** The object a [Message] is at run time. *)
Definition Message_value (m : Message) : value :=
  match m with
  | system c => VObj [("role", VStr "system"); ("content", VStr c)]
  | assistant c tc =>
      VObj ([("role", VStr "assistant"); ("content", VStr c)] ++
            match tc with
            | absent => []
            | present_undefined => [("tool_calls", VUndefined)]
            | present s => [("tool_calls", VStr s)]
            end)%list
  | tool c => VObj [("role", VStr "tool"); ("content", VStr c)]
  | user c => VObj [("role", VStr "user"); ("content", VStr c)]
  end.

Definition Message_content (m : Message) : string :=
  match m with
  | system c | assistant c _ | tool c | user c => c
  end.

(** The finish reasons of a choice. *)
Module Finish.

Inductive reason := stop | length | content_filter | tool_calls.

Definition to_string (r : reason) : string :=
  match r with
  | stop => "stop"
  | length => "length"
  | content_filter => "content_filter"
  | tool_calls => "tool_calls"
  end.

End Finish.

(** [Response], the type inferred from [responseSchema], with its parts. *)
Record Usage := {
  completion_tokens : number;
  prompt_tokens : number;
  total_tokens : number
}.

Record Choice := {
  choice_message : Message;
  choice_finish_reason : Finish.reason
}.

Record Response := {
  response_id : string;
  response_model : string;
  response_choices : list Choice;
  response_usage : Usage
}.

Definition Usage_value (u : Usage) : value :=
  VObj [("completion_tokens", VNum (completion_tokens u));
        ("prompt_tokens", VNum (prompt_tokens u));
        ("total_tokens", VNum (total_tokens u))].

Definition Choice_value (c : Choice) : value :=
  VObj [("message", Message_value (choice_message c));
        ("finish_reason", VStr (Finish.to_string (choice_finish_reason c)))].

Definition Response_value (r : Response) : value :=
  VObj [("id", VStr (response_id r));
        ("model", VStr (response_model r));
        ("object", VStr "chat.completion");
        ("choices", VArr (map Choice_value (response_choices r)));
        ("usage", Usage_value (response_usage r))].

(** The second argument of [query]. *)
Record QueryConfig := {
  systemPrompt : option string;
  openAiConfig : option object;
  schema : option ZodSchema
}.

Section Client.

(** The API key of [config.ts], and the provider at the other end of
    [fetch]. *)
Variable api_key : string.
Variable provider : Request -> FetchResult.

(** [fetch(url, init).then(res => res.json())] *)
Definition fetch_json (req : Request) : M value :=
  fun w =>
    let w' := {| console := console w; sent := sent w ++ [req] |} in
    match provider req with
    | network_failure => (Thrown FetchError, w')
    | invalid_json_body => (Thrown SyntaxError, w')
    | json_body json => (Returned json, w')
    end.

(** The object serialised as the body of the request: [{...config, messages}]. *)
Definition payload (config : object) (messages : list Message) : object :=
  obj_set (obj_spread [] config) "messages" (VArr (map Message_value messages)).

Definition request (config : object) (messages : list Message) : Request :=
  {| url := "https://api.openai.com/v1/chat/completions";
     method := "POST";
     headers := [("Content-Type", "application/json");
                 ("Authorization", "Bearer " ++ api_key)];
     body := JSON_stringify (VObj (payload config messages));
     timeout_ms := REQUEST_TIMEOUT_MS |}.

(** [send(config, ...messages)] *)
Definition send (config : object) (messages : list Message) : M value :=
  json <- fetch_json (request config messages) ;;
  err <- lift TypeError (member json "error") ;;
  if truthy err
  then throw (OpenAiError (JSON_stringify json))
  else lift ZodError (parse responseSchema json).

(** [query(userPrompt, config)] *)
Definition query (userPrompt : string) (config : option QueryConfig) : M value :=
  let schema := match config with Some c => schema c | None => None end in
  let systemPrompt := match config with Some c => systemPrompt c | None => None end in
  let messages : list Message := [] in
  let messages :=
    match schema with
    | Some s =>
        (messages ++
         [system ("Only provide responses in valid JSON in terms of " ++
                  JSON_stringify (zodToJsonSchema s) ++ ".")])%list
    | None => messages
    end in
  let messages :=
    match systemPrompt with
    | Some p => if truthy (VStr p) then (messages ++ [system p])%list else messages
    | None => messages
    end in
  let messages := (messages ++ [user userPrompt])%list in
  response <-
    send
      (obj_spread
         (obj_spread
            (obj_spread [] DEFAULT_REQUEST_CONFIG)
            match schema with
            | Some _ => [("response_format", VObj [("type", VStr "json_object")])]
            | None => []
            end)
         match config with
         | Some {| openAiConfig := Some overrides |} => overrides
         | _ => []
         end)
      messages ;;
  choices <- lift TypeError (member response "choices") ;;
  let choice := index choices 0 in
  finish_reason <- lift TypeError (member choice "finish_reason") ;;
  (if negb (strict_eq_str finish_reason "stop")
   then console_warn ("Unexpected finish reason: " ++ ToString finish_reason)
   else ret tt) ;;;
  message <- lift TypeError (member choice "message") ;;
  content <- lift TypeError (member message "content") ;;
  try_catch
    match schema with
    | Some s =>
        json <- lift SyntaxError (JSON_parse (ToString content)) ;;
        lift ZodError (schema_parse s json)
    | None => ret content
    end
    (fun _ =>
       try_catch
         (json <- lift SyntaxError (JSON_parse (ToString content)) ;;
          console_error ("Could not parse: " ++ JSON_stringify_indent2 json))
         (fun _ => console_error ("Could not parse: " ++ ToString content)) ;;;
       process_exit 1).

End Client.

End ChatGpt.
Import ChatGpt.

(* ===================================================================== *)
(** ** Definitions for the statements *)
(* ===================================================================== *)

Local Open Scope js_scope.

(** *** The loops of [parse], by name *)

Section Loops.

Variable t : ZodType.
Variable data : object.

(** Over the elements of an array. *)
Fixpoint parse_each (l : list value) : option (list value) :=
  match l with
  | [] => Some []
  | x :: r =>
      match parse t x, parse_each r with
      | Some y, Some ys => Some (y :: ys)
      | _, _ => None
      end
  end.

(** Over the keys of a shape. *)
Fixpoint parse_fields (shape : list (string * ZodType)) : option object :=
  match shape with
  | [] => Some []
  | (k, t') :: r =>
      match parse t' (prop data k), parse_fields r with
      | Some y, Some ys =>
          Some (if obj_has data k || negb (is_undefined y) then (k, y) :: ys else ys)
      | _, _ => None
      end
  end.

End Loops.

(** The two schemas [responseSchema] writes in place. *)
Definition finishReasonSchema : ZodType :=
  z_union [z_literal "stop"; z_literal "length";
           z_literal "content_filter"; z_literal "tool_calls"].

Definition choiceSchema : ZodType :=
  z_object [("message", messageSchema); ("finish_reason", finishReasonSchema)].

Definition accepts (t : ZodType) (v : value) : bool :=
  match parse t v with
  | Some _ => true
  | None => false
  end.

(** *** The two halves of [query] *)

Definition config_schema (config : option QueryConfig) : option ZodSchema :=
  match config with
  | Some c => schema c
  | None => None
  end.

Definition config_systemPrompt (config : option QueryConfig) : option string :=
  match config with
  | Some c => systemPrompt c
  | None => None
  end.

Definition config_overrides (config : option QueryConfig) : object :=
  match config with
  | Some {| openAiConfig := Some overrides |} => overrides
  | _ => []
  end.

Definition json_object_format : value := VObj [("type", VStr "json_object")].

(** The configuration [query] hands to [send]. *)
Definition effective_config (config : option QueryConfig) : object :=
  obj_spread
    (obj_spread
       (obj_spread [] DEFAULT_REQUEST_CONFIG)
       match config_schema config with
       | Some _ => [("response_format", json_object_format)]
       | None => []
       end)
    (config_overrides config).

(** The text of the JSON instruction. *)
Definition instruction (s : ZodSchema) : string :=
  "Only provide responses in valid JSON in terms of " ++
  JSON_stringify (zodToJsonSchema s) ++ ".".

(** The messages [query] hands to [send]. *)
Definition outbound_messages (userPrompt : string) (config : option QueryConfig)
  : list Message :=
  (match config_schema config with
   | Some s => [system (instruction s)]
   | None => []
   end ++
   match config_systemPrompt config with
   | Some p => if String.eqb p "" then [] else [system p]
   | None => []
   end ++
   [user userPrompt])%list.

(** The one request [query] sends. *)
Definition query_request (api_key userPrompt : string) (config : option QueryConfig)
  : Request :=
  request api_key (effective_config config) (outbound_messages userPrompt config).

(** What [query] does with the response, once [send] has returned it. *)
Definition receive (schema : option ZodSchema) (response : value) : M value :=
  choices <- lift TypeError (member response "choices") ;;
  let choice := index choices 0 in
  finish_reason <- lift TypeError (member choice "finish_reason") ;;
  (if negb (strict_eq_str finish_reason "stop")
   then console_warn ("Unexpected finish reason: " ++ ToString finish_reason)
   else ret tt) ;;;
  message <- lift TypeError (member choice "message") ;;
  content <- lift TypeError (member message "content") ;;
  try_catch
    match schema with
    | Some s =>
        json <- lift SyntaxError (JSON_parse (ToString content)) ;;
        lift ZodError (schema_parse s json)
    | None => ret content
    end
    (fun _ =>
       try_catch
         (json <- lift SyntaxError (JSON_parse (ToString content)) ;;
          console_error ("Could not parse: " ++ JSON_stringify_indent2 json))
         (fun _ => console_error ("Could not parse: " ++ ToString content)) ;;;
       process_exit 1).

(** The world with more lines on the console, and with one more request
    sent. *)
Definition log (w : World) (entries : list LogEntry) : World :=
  {| console := console w ++ entries; sent := sent w |}.

Definition post (w : World) (req : Request) : World :=
  {| console := console w; sent := sent w ++ [req] |}.

(** The world after the warning about a finish reason, if one is due. *)
Definition warned (w : World) (fr : Finish.reason) : World :=
  match fr with
  | Finish.stop => w
  | _ => log w [warn ("Unexpected finish reason: " ++ Finish.to_string fr)]
  end.

(** The provider's body [json] passes [send] and is read as the typed
    response [r]: its [error] member is falsy and [responseSchema]
    accepts it. *)
Definition validates (json : value) (r : Response) : Prop :=
  (exists e, member json "error" = Some e /\ truthy e = false) /\
  parse responseSchema json = Some (Response_value r).

(** The response [r] with the finish reason of its first choice replaced
    by [stop]. *)
Definition stopped (r : Response) : Response :=
  {| response_id := response_id r;
     response_model := response_model r;
     response_choices :=
       match response_choices r with
       | [] => []
       | c :: rest =>
           {| choice_message := choice_message c;
              choice_finish_reason := Finish.stop |} :: rest
       end;
     response_usage := response_usage r |}.

(** *** Objects and their text *)

Definition keys (o : object) : list string := map fst o.

(** The members [serialize] prints for an object. *)
Fixpoint members (ps : object) : list string :=
  match ps with
  | [] => []
  | (_, VUndefined) :: r => members r
  | (k, x) :: r => (quote k ++ ":" ++ serialize x) :: members r
  end.

(** *** JSON values and their text *)

Fixpoint unique (l : list string) : bool :=
  match l with
  | [] => true
  | k :: r => negb (existsb (String.eqb k) r) && unique r
  end.

(** A JSON value: nothing undefined in it, its numbers in normal form,
    and the keys of each of its objects all different. *)
Fixpoint is_json (v : value) : bool :=
  match v with
  | VUndefined => false
  | VNull | VBool _ | VStr _ => true
  | VNum n => number_ok n
  | VArr l => forallb is_json l
  | VObj ps => unique (map fst ps) && forallb (fun kv => is_json (snd kv)) ps
  end.

(** The fuel [parse_value] needs to read a value back. *)
Fixpoint size (v : value) : nat :=
  match v with
  | VArr l => S (list_sum (map (fun x => S (size x)) l))
  | VObj ps => S (list_sum (map (fun kv => S (size (snd kv))) ps))
  | _ => 1
  end.

(** What may follow a value in JSON text: nothing, a comma, or a closing
    bracket or brace. *)
Definition delim (rest : string) : Prop :=
  match rest with
  | EmptyString => True
  | String c _ => code c = 44%N \/ code c = 93%N \/ code c = 125%N
  end.

Definition nondigit_head (rest : string) : Prop :=
  match rest with
  | EmptyString => True
  | String c _ => is_digit c = false
  end.

(** The first character of the text of a JSON value is no blank and
    closes nothing. *)
Definition opens (s : string) : Prop :=
  match s with
  | EmptyString => False
  | String c _ => is_ws c = false /\ code c <> 93%N /\ code c <> 125%N
  end.

(** What the round trip says of one value. *)
Definition reads_back (v : value) : Prop :=
  is_json v = true ->
  forall fuel rest, (size v <= fuel)%nat -> delim rest ->
  parse_value fuel (serialize v ++ rest) = Some (v, rest).

(** *** The shape of the envelope

    The envelope as the specification describes it, less what the
    validation does not ask for: an identifier and a model name that are
    strings, the tag [chat.completion], an array of choices, each with a
    message and one of the four finish reasons, and a usage record with
    three counts that are numbers.  Members beyond these are ignored. *)
Definition is_string (v : value) : bool :=
  match v with VStr _ => true | _ => false end.

Definition is_number (v : value) : bool :=
  match v with VNum _ => true | _ => false end.

Definition is_message (v : value) : bool :=
  match v with
  | VObj o =>
      let role := prop o "role" in
      is_string (prop o "content") &&
      (strict_eq_str role "system" ||
       strict_eq_str role "tool" ||
       strict_eq_str role "user" ||
       (strict_eq_str role "assistant" &&
        (is_undefined (prop o "tool_calls") || is_string (prop o "tool_calls"))))
  | _ => false
  end.

Definition is_finish_reason (v : value) : bool :=
  strict_eq_str v "stop" || strict_eq_str v "length" ||
  strict_eq_str v "content_filter" || strict_eq_str v "tool_calls".

Definition is_choice (v : value) : bool :=
  match v with
  | VObj o => is_message (prop o "message") && is_finish_reason (prop o "finish_reason")
  | _ => false
  end.

Definition is_usage (v : value) : bool :=
  match v with
  | VObj o =>
      is_number (prop o "completion_tokens") &&
      is_number (prop o "prompt_tokens") &&
      is_number (prop o "total_tokens")
  | _ => false
  end.

Definition is_envelope (v : value) : bool :=
  match v with
  | VObj o =>
      is_string (prop o "id") &&
      is_string (prop o "model") &&
      strict_eq_str (prop o "object") "chat.completion" &&
      match prop o "choices" with
      | VArr l => forallb is_choice l
      | _ => false
      end &&
      is_usage (prop o "usage")
  | _ => false
  end.

(** *** Data for the examples *)

(** A provider that answers every request with [json]. *)
Definition answering (json : value) : Request -> FetchResult :=
  fun _ => json_body json.

Definition sample_usage : Usage :=
  {| completion_tokens := num "9"; prompt_tokens := num "12"; total_tokens := num "21" |}.

Definition sample_response (content : string) (fr : Finish.reason) : Response :=
  {| response_id := "chatcmpl-1";
     response_model := "gpt-4-1106-preview";
     response_choices :=
       [{| choice_message := assistant content absent; choice_finish_reason := fr |}];
     response_usage := sample_usage |}.

Definition no_choice_response : Response :=
  {| response_id := "chatcmpl-2";
     response_model := "gpt-4-1106-preview";
     response_choices := [];
     response_usage := sample_usage |}.

(** The schema of the repository's demonstration,
    [z.object({body: z.string(), punchline: z.string()})], with its
    description as a JSON schema. *)
Definition jokeSchema : ZodSchema :=
  schema_of
    (z_object [("body", z_string); ("punchline", z_string)])
    (VObj [("type", VStr "object");
           ("properties", VObj [("body", VObj [("type", VStr "string")]);
                                ("punchline", VObj [("type", VStr "string")])]);
           ("required", VArr [VStr "body"; VStr "punchline"]);
           ("additionalProperties", VBool false);
           ("$schema", VStr "http://json-schema.org/draft-07/schema#")]).

Definition with_schema (s : ZodSchema) : option QueryConfig :=
  Some {| systemPrompt := None; openAiConfig := None; schema := Some s |}.

Definition with_overrides (s : option ZodSchema) (overrides : object) : option QueryConfig :=
  Some {| systemPrompt := None; openAiConfig := Some overrides; schema := s |}.

(** *** What JSON text keeps of a value *)

(** The value [JSON.stringify] writes down for [v]: a property holding
    [undefined] is gone, an array element holding it is [null]. *)
Fixpoint to_json (v : value) : value :=
  match v with
  | VUndefined => VNull
  | VArr l => VArr (map to_json l)
  | VObj ps =>
      VObj ((fix props (ps : object) : object :=
               match ps with
               | [] => []
               | (_, VUndefined) :: r => props r
               | (k, x) :: r => (k, to_json x) :: props r
               end) ps)
  | _ => v
  end.

(** The properties [to_json] keeps of an object. *)
Fixpoint kept (ps : object) : object :=
  match ps with
  | [] => []
  | (_, VUndefined) :: r => kept r
  | (k, x) :: r => (k, to_json x) :: kept r
  end.

(** A value as JavaScript holds it: its numbers in the one form a number
    has, and the keys of each of its objects all different.  It may hold
    [undefined]. *)
Fixpoint well_formed (v : value) : bool :=
  match v with
  | VNum n => number_ok n
  | VArr l => forallb well_formed l
  | VObj ps => unique (map fst ps) && forallb (fun kv => well_formed (snd kv)) ps
  | _ => true
  end.

(** *** Indented JSON text *)

(** A string of blanks. *)
Fixpoint blanks (s : string) : bool :=
  match s with
  | EmptyString => true
  | String c r => is_ws c && blanks r
  end.

(** What may follow a value in indented JSON text: nothing, a comma, or
    a line break. *)
Definition ends (rest : string) : Prop :=
  match rest with
  | EmptyString => True
  | String c _ => code c = 44%N \/ code c = 10%N
  end.

(** What may follow a number: no digit, no point, no exponent. *)
Definition number_end (rest : string) : Prop :=
  match rest with
  | EmptyString => True
  | String c _ =>
      is_digit c = false /\ (code c =? 46)%N = false /\
      ((code c =? 101) || (code c =? 69))%N = false
  end.

Section Indented.

Variable ind' : string.

(** The members [serialize_indent] prints for an object, one level in. *)
Fixpoint members_indent (ps : object) : list string :=
  match ps with
  | [] => []
  | (_, VUndefined) :: r => members_indent r
  | (k, x) :: r => (quote k ++ ": " ++ serialize_indent ind' x) :: members_indent r
  end.

End Indented.

(** What the round trip through indented text says of one value. *)
Definition reads_back_indented (v : value) : Prop :=
  is_json v = true ->
  forall ind fuel rest, blanks ind = true -> (size v <= fuel)%nat -> ends rest ->
  parse_value fuel (serialize_indent ind v ++ rest) = Some (v, rest).

(** *** A value less some of its members *)

(** [a] is [b] less some members: the same primitive; an array of the
    same length, element by element; an object each of whose members is
    a member of [b], less some members in turn. *)
Fixpoint within (a b : value) : bool :=
  match a, b with
  | VUndefined, VUndefined => true
  | VNull, VNull => true
  | VBool x, VBool y => Bool.eqb x y
  | VNum x, VNum y => number_same x y
  | VStr x, VStr y => String.eqb x y
  | VArr xs, VArr ys =>
      (fix all (xs ys : list value) : bool :=
         match xs, ys with
         | [], [] => true
         | x :: xs', y :: ys' => within x y && all xs' ys'
         | _, _ => false
         end) xs ys
  | VObj ps, VObj qs =>
      (fix all (ps : object) : bool :=
         match ps with
         | [] => true
         | (k, x) :: ps' =>
             match obj_get qs k with
             | Some y => within x y && all ps'
             | None => false
             end
         end) ps
  | _, _ => false
  end.

(** The loops of [within], by name. *)
Section Within.

Variable qs : object.

Fixpoint within_each (xs ys : list value) : bool :=
  match xs, ys with
  | [], [] => true
  | x :: xs', y :: ys' => within x y && within_each xs' ys'
  | _, _ => false
  end.

Fixpoint within_members (ps : object) : bool :=
  match ps with
  | [] => true
  | (k, x) :: ps' =>
      match obj_get qs k with
      | Some y => within x y && within_members ps'
      | None => false
      end
  end.

End Within.

(** Induction over schemas that reaches inside shapes and options. *)
Section ZodType_induction.

Variable P : ZodType -> Prop.
Hypothesis Hstring : P z_string.
Hypothesis Hnumber : P z_number.
Hypothesis Hliteral : forall s, P (z_literal s).
Hypothesis Hoptional : forall t, P t -> P (z_optional t).
Hypothesis Harray : forall t, P t -> P (z_array t).
Hypothesis Hobject : forall shape, Forall (fun kt => P (snd kt)) shape -> P (z_object shape).
Hypothesis Hunion : forall options, Forall P options -> P (z_union options).
Hypothesis Hdiscriminated :
  forall key options, Forall P options -> P (z_discriminatedUnion key options).

Fixpoint ZodType_ind' (t : ZodType) : P t :=
  let all :=
    fix all (l : list ZodType) : Forall P l :=
      match l with
      | [] => Forall_nil P
      | x :: r => Forall_cons x (ZodType_ind' x) (all r)
      end in
  match t with
  | z_string => Hstring
  | z_number => Hnumber
  | z_literal s => Hliteral s
  | z_optional t' => Hoptional t' (ZodType_ind' t')
  | z_array t' => Harray t' (ZodType_ind' t')
  | z_object shape =>
      Hobject shape
        ((fix fields (l : list (string * ZodType)) : Forall (fun kt => P (snd kt)) l :=
            match l with
            | [] => Forall_nil _
            | kt :: r => Forall_cons kt (ZodType_ind' (snd kt)) (fields r)
            end) shape)
  | z_union options => Hunion options (all options)
  | z_discriminatedUnion key options => Hdiscriminated key options (all options)
  end.

End ZodType_induction.

(** The loops of [parse] over the options of a union, by name. *)
Section Options.

Variable v : value.

Fixpoint parse_first (options : list ZodType) : option value :=
  match options with
  | [] => None
  | t' :: r =>
      match parse t' v with
      | Some y => Some y
      | None => parse_first r
      end
  end.

Variable key : string.
Variable found : value.

Fixpoint parse_pick (options : list ZodType) : option value :=
  match options with
  | [] => None
  | t' :: r => if discriminates key t' found then parse t' v else parse_pick r
  end.

End Options.

(** *** More data for the examples *)

(** A body as the provider sends it, with members the envelope does not
    declare. *)
Definition verbose_answer : value :=
  VObj [("id", VStr "chatcmpl-1");
        ("object", VStr "chat.completion");
        ("created", VNum (num "1700000000"));
        ("model", VStr "gpt-4-1106-preview");
        ("system_fingerprint", VNull);
        ("choices",
         VArr [VObj [("index", VNum (num "0"));
                     ("message", VObj [("role", VStr "assistant"); ("content", VStr "Why?")]);
                     ("logprobs", VNull);
                     ("finish_reason", VStr "stop")]]);
        ("usage", VObj [("prompt_tokens", VNum (num "12"));
                        ("completion_tokens", VNum (num "9"));
                        ("total_tokens", VNum (num "21"))])].

(** The answer to a call of a tool: its message has no content. *)
Definition tool_call_answer : value :=
  VObj [("id", VStr "chatcmpl-1");
        ("object", VStr "chat.completion");
        ("model", VStr "gpt-4-1106-preview");
        ("choices",
         VArr [VObj [("message", VObj [("role", VStr "assistant"); ("content", VNull)]);
                     ("finish_reason", VStr "tool_calls")]]);
        ("usage", VObj [("prompt_tokens", VNum (num "12"));
                        ("completion_tokens", VNum (num "9"));
                        ("total_tokens", VNum (num "21"))])].

(** The body the provider answers when its rate limit is reached. *)
Definition rate_limit_answer : value :=
  VObj [("error", VObj [("message", VStr "Rate limit reached"); ("type", VStr "requests");
                        ("code", VStr "rate_limit_exceeded")])].

(** A provider that tells a joke: as a JSON object when the request asks
    for one, as plain text otherwise. *)
Definition joker : Request -> FetchResult :=
  fun req =>
    json_body
      (Response_value
         (sample_response
            match String.index 0 "response_format" (body req) with
            | Some _ => json_text "{'body':'Why?','punchline':'No guts.'}"
            | None => "Why? No guts."
            end
            Finish.stop)).

(* ===================================================================== *)
(** ** [example.ts] *)
(* ===================================================================== *)

Module Example.

(** [s.repeat(n)] *)
Fixpoint repeat (s : string) (n : nat) : string :=
  match n with
  | O => ""
  | S n' => s ++ repeat s n'
  end.

(** The terminal of the script: the world of the client, and the values
    [console.log] was called with, oldest first. *)
Record Terminal := {
  world : World;
  logged : list value
}.

Definition blank : Terminal := {| world := start; logged := [] |}.

Definition Script (A : Type) : Type := Terminal -> Outcome A * Terminal.

(** [await m], for a call of the client. *)
Definition await {A} (m : M A) : Script A :=
  fun t =>
    let (o, w) := m (world t) in
    (o, {| world := w; logged := logged t |}).

(** One statement after another: the rest runs when the first returns. *)
Definition and_then {A B} (m : Script A) (k : A -> Script B) : Script B :=
  fun t =>
    match m t with
    | (Returned a, t') => k a t'
    | (Thrown e, t') => (Thrown e, t')
    | (Exited st, t') => (Exited st, t')
    end.

Definition console_log (v : value) : Script unit :=
  fun t => (Returned tt, {| world := world t; logged := (logged t ++ [v])%list |}).

(** [JSON.stringify(v, null, 2)] as a value: a string, or [undefined]. *)
Definition stringify_indent2 (v : value) : value :=
  match v with
  | VUndefined => VUndefined
  | _ => VStr (JSON_stringify_indent2 v)
  end.

(** The body of the script: the function handed to
    [Promise.resolve().then]. *)
Definition main (api_key : string) (provider : Request -> FetchResult) : Script unit :=
  and_then (await (query api_key provider "Tell me a joke" None)) (fun untyped =>
  and_then (console_log untyped) (fun _ =>
  and_then (console_log (VStr (repeat "-" 80))) (fun _ =>
  and_then (await (query api_key provider "Tell me a joke"
                     (Some {| systemPrompt := None;
                              openAiConfig := None;
                              schema := Some jokeSchema |}))) (fun typed =>
  console_log (stringify_indent2 typed))))).

(** The script from the loading of its modules on: [config.ts] reads the
    key from the environment, or throws; then the body runs.  [inl] is
    the message of the error thrown while loading. *)
Definition script (env : string -> option string) (provider : Request -> FetchResult)
  : string + (Outcome unit * Terminal) :=
  match OPENAI_API_KEY env with
  | inl message => inl message
  | inr key => inr (main key provider blank)
  end.

End Example.
Import Example.

(* ===================================================================== *)
(** ** JSON text: examples *)
(* ===================================================================== *)

Example stringify_demo :
  JSON_stringify (VObj [("a", VNum (num "0.7")); ("u", VUndefined);
                        ("b", VArr [VStr "x"; VNull; VNum (num "-15")])])
  = json_text "{'a':0.7,'b':['x',null,-15]}".
Proof. vm_compute. reflexivity. Qed.

Example stringify_indent_demo :
  JSON_stringify_indent2 (VObj [("a", VNum (num "1")); ("b", VArr [])])
  = json_text ("{" ++ newline ++ "  'a': 1," ++ newline ++ "  'b': []" ++ newline ++ "}").
Proof. vm_compute. reflexivity. Qed.

Example parse_demo :
  JSON_parse (json_text " {'a': 0.70, 'b': [true, null, -1.5e1, 'A\n'], 'a': {}} ")
  = Some (VObj [("a", VObj []);
                ("b", VArr [VBool true; VNull; VNum (num "-15");
                            VStr ("A" ++ newline)])]).
Proof. vm_compute. reflexivity. Qed.

Example parse_rejects :
  JSON_parse "not json" = None /\ JSON_parse "01" = None /\
  JSON_parse "[1,]" = None /\ JSON_parse "" = None /\ JSON_parse "1 2" = None.
Proof. vm_compute. repeat split. Qed.

Example parse_stringify_demo :
  let v := VObj [("body", VStr "a"); ("n", VNum (num "0.7")); ("l", VArr [VNull; VBool false])] in
  JSON_parse (JSON_stringify v) = Some v /\ JSON_parse (JSON_stringify_indent2 v) = Some v.
Proof. vm_compute. split; reflexivity. Qed.

(* ===================================================================== *)
(** ** The validated response *)
(* ===================================================================== *)

Lemma strict_eq_str_true (v : value) (s : string) :
  strict_eq_str v s = true -> v = VStr s.
Proof.
  destruct v; simpl; try discriminate.
  intros H. apply String.eqb_eq in H. now subst.
Qed.

Lemma parse_string_inv (v o : value) :
  parse z_string v = Some o -> exists s, v = VStr s /\ o = VStr s.
Proof.
  destruct v; simpl; try discriminate.
  intros H. injection H as <-. now exists s.
Qed.

Lemma parse_number_inv (v o : value) :
  parse z_number v = Some o -> exists n, v = VNum n /\ o = VNum n.
Proof.
  destruct v; simpl; try discriminate.
  intros H. injection H as <-. now exists n.
Qed.

Lemma parse_literal_inv (s : string) (v o : value) :
  parse (z_literal s) v = Some o -> v = VStr s /\ o = VStr s.
Proof.
  simpl. destruct (strict_eq_str v s) eqn:E; try discriminate.
  intros H. injection H as <-. apply strict_eq_str_true in E. now subst.
Qed.

(** Every message is accepted by [messageSchema], unchanged. *)
Lemma parse_Message_value (m : Message) :
  parse messageSchema (Message_value m) = Some (Message_value m).
Proof.
  destruct m as [c | c [ | | tc] | c | c]; reflexivity.
Qed.

Lemma parse_Usage_value (u : Usage) :
  parse usageSchema (Usage_value u) = Some (Usage_value u).
Proof. reflexivity. Qed.
Lemma parse_array (t : ZodType) (l : list value) :
  parse (z_array t) (VArr l) = option_map VArr (parse_each t l).
Proof. reflexivity. Qed.

Lemma parse_object (shape : list (string * ZodType)) (data : object) :
  parse (z_object shape) (VObj data) = option_map VObj (parse_fields data shape).
Proof. reflexivity. Qed.

Lemma responseSchema_eq :
  responseSchema =
  z_object [("id", z_string); ("model", z_string);
            ("object", z_literal "chat.completion");
            ("choices", z_array choiceSchema); ("usage", usageSchema)].
Proof. reflexivity. Qed.

Lemma parse_Choice_value (c : Choice) :
  parse choiceSchema (Choice_value c) = Some (Choice_value c).
Proof.
  destruct c as [m fr]. unfold choiceSchema, Choice_value.
  rewrite parse_object. cbn [parse_fields choice_message choice_finish_reason].
  change (prop _ "message") with (Message_value m).
  change (prop _ "finish_reason") with (VStr (Finish.to_string fr)).
  rewrite parse_Message_value.
  destruct fr; reflexivity.
Qed.

Lemma parse_each_Choice_value (cs : list Choice) :
  parse_each choiceSchema (map Choice_value cs) = Some (map Choice_value cs).
Proof.
  induction cs as [ | c cs IH]; [reflexivity | ].
  cbn [map parse_each]. now rewrite parse_Choice_value, IH.
Qed.

(** Every typed response is accepted by [responseSchema], unchanged. *)
Lemma parse_Response_value (r : Response) :
  parse responseSchema (Response_value r) = Some (Response_value r).
Proof.
  rewrite responseSchema_eq. unfold Response_value.
  rewrite parse_object. cbn [parse_fields].
  change (prop _ "id") with (VStr (response_id r)).
  change (prop _ "model") with (VStr (response_model r)).
  change (prop _ "object") with (VStr "chat.completion").
  change (prop _ "choices") with (VArr (map Choice_value (response_choices r))).
  change (prop _ "usage") with (Usage_value (response_usage r)).
  rewrite parse_array, parse_each_Choice_value, parse_Usage_value.
  reflexivity.
Qed.

(** *** What a validated response looks like *)

Lemma included_defined (b : bool) (k : string) (y : value) (ys : object) :
  y <> VUndefined ->
  (if b || negb (is_undefined y) then (k, y) :: ys else ys) = (k, y) :: ys.
Proof.
  intros H. destruct y; try (now rewrite orb_true_r). now destruct H.
Qed.

Lemma parse_Message_inv (v y : value) :
  parse messageSchema v = Some y -> exists m, y = Message_value m.
Proof.
  destruct v as [ | | | | | | o]; try discriminate.
  unfold messageSchema, messageSystemSchema.
  cbn [parse discriminates shape_get String.eqb Ascii.eqb Bool.eqb].
  repeat match goal with
  | |- context [strict_eq_str (prop o "role") ?s] =>
      destruct (strict_eq_str (prop o "role") s) eqn:?
  end; try discriminate;
  match goal with
  | H : strict_eq_str _ _ = true |- _ => apply strict_eq_str_true in H; rewrite H
  end;
  cbn [strict_eq_str String.eqb Ascii.eqb Bool.eqb option_map];
  destruct (prop o "content") as [ | | | | c | | ]; try discriminate.
  all: cbn [is_undefined negb]; rewrite ?orb_true_r.
  - intros H; injection H as <-. now exists (system c).
  - destruct (prop o "tool_calls") as [ | | | | tc | | ] eqn:Etc; try discriminate.
    + cbn [is_undefined negb]. rewrite orb_false_r.
      destruct (obj_has o "tool_calls");
        intros H; injection H as <-;
        [now exists (assistant c present_undefined) | now exists (assistant c absent)].
    + cbn [is_undefined negb]. rewrite orb_true_r.
      intros H; injection H as <-. now exists (assistant c (present tc)).
  - intros H; injection H as <-. now exists (tool c).
  - intros H; injection H as <-. now exists (user c).
Qed.

Lemma parse_finish_reason_inv (v y : value) :
  parse finishReasonSchema v = Some y ->
  exists fr, v = VStr (Finish.to_string fr) /\ y = VStr (Finish.to_string fr).
Proof.
  unfold finishReasonSchema. cbn [parse].
  repeat match goal with
  | |- context [strict_eq_str v ?s] => destruct (strict_eq_str v s) eqn:?
  end; try discriminate;
  match goal with
  | H : strict_eq_str _ _ = true |- _ => apply strict_eq_str_true in H; subst v
  end; intros H; injection H as <-.
  - now exists Finish.stop.
  - now exists Finish.length.
  - now exists Finish.content_filter.
  - now exists Finish.tool_calls.
Qed.

Lemma parse_Choice_inv (v y : value) :
  parse choiceSchema v = Some y -> exists c, y = Choice_value c.
Proof.
  destruct v as [ | | | | | | o]; try discriminate.
  unfold choiceSchema. rewrite parse_object. cbn [parse_fields].
  destruct (parse messageSchema (prop o "message")) as [ym | ] eqn:Em; try discriminate.
  destruct (parse finishReasonSchema (prop o "finish_reason")) as [yf | ] eqn:Ef;
    try discriminate.
  apply parse_Message_inv in Em as [m ->].
  apply parse_finish_reason_inv in Ef as [fr [_ ->]].
  rewrite !included_defined by (try discriminate; destruct m; discriminate).
  intros H; injection H as <-.
  now exists {| choice_message := m; choice_finish_reason := fr |}.
Qed.

Lemma parse_each_Choice_inv (l ys : list value) :
  parse_each choiceSchema l = Some ys -> exists cs, ys = map Choice_value cs.
Proof.
  revert ys. induction l as [ | x l IH]; intros ys; cbn [parse_each].
  - intros H; injection H as <-. now exists [].
  - destruct (parse choiceSchema x) as [y | ] eqn:Ex; try discriminate.
    destruct (parse_each choiceSchema l) as [ys' | ]; try discriminate.
    intros H; injection H as <-.
    apply parse_Choice_inv in Ex as [c ->].
    destruct (IH _ eq_refl) as [cs ->].
    now exists (c :: cs).
Qed.

Lemma parse_Usage_inv (v y : value) :
  parse usageSchema v = Some y -> exists u, y = Usage_value u.
Proof.
  destruct v as [ | | | | | | o]; try discriminate.
  unfold usageSchema. rewrite parse_object. cbn [parse_fields].
  destruct (parse z_number (prop o "completion_tokens")) as [a | ] eqn:Ea; try discriminate.
  destruct (parse z_number (prop o "prompt_tokens")) as [b | ] eqn:Eb; try discriminate.
  destruct (parse z_number (prop o "total_tokens")) as [c | ] eqn:Ec; try discriminate.
  apply parse_number_inv in Ea as [na [_ ->]].
  apply parse_number_inv in Eb as [nb [_ ->]].
  apply parse_number_inv in Ec as [nc [_ ->]].
  rewrite !included_defined by discriminate.
  intros H; injection H as <-.
  now exists {| completion_tokens := na; prompt_tokens := nb; total_tokens := nc |}.
Qed.

(** Whatever [responseSchema] returns is a typed response. *)
Lemma parse_Response_inv (json y : value) :
  parse responseSchema json = Some y -> exists r, y = Response_value r.
Proof.
  destruct json as [ | | | | | | o]; try discriminate.
  rewrite responseSchema_eq, parse_object. cbn [parse_fields].
  destruct (parse z_string (prop o "id")) as [a | ] eqn:Ea; try discriminate.
  destruct (parse z_string (prop o "model")) as [b | ] eqn:Eb; try discriminate.
  destruct (parse (z_literal "chat.completion") (prop o "object")) as [c | ] eqn:Ec;
    try discriminate.
  destruct (parse (z_array choiceSchema) (prop o "choices")) as [d | ] eqn:Ed;
    try discriminate.
  destruct (parse usageSchema (prop o "usage")) as [e | ] eqn:Ee; try discriminate.
  apply parse_string_inv in Ea as [i [_ ->]].
  apply parse_string_inv in Eb as [m [_ ->]].
  apply parse_literal_inv in Ec as [_ ->].
  apply parse_Usage_inv in Ee as [u ->].
  destruct (prop o "choices") as [ | | | | | l | ]; try discriminate.
  rewrite parse_array in Ed.
  destruct (parse_each choiceSchema l) as [ys | ] eqn:El; try discriminate.
  injection Ed as <-.
  apply parse_each_Choice_inv in El as [cs ->].
  rewrite !included_defined by discriminate.
  intros H; injection H as <-.
  now exists {| response_id := i; response_model := m;
                response_choices := cs; response_usage := u |}.
Qed.

(* ===================================================================== *)
(** ** The runs of [send] and [query] *)
(* ===================================================================== *)

Section Runs.

Variable api_key : string.
Variable provider : Request -> FetchResult.

Lemma query_halves (userPrompt : string) (config : option QueryConfig) :
  query api_key provider userPrompt config =
  (response <- send api_key provider (effective_config config)
                 (outbound_messages userPrompt config) ;;
   receive (config_schema config) response).
Proof.
  destruct config as [[[p | ] [o | ] [s | ]] | ]; try reflexivity;
    unfold query, outbound_messages, config_systemPrompt; cbn [truthy systemPrompt];
    destruct (String.eqb p ""); reflexivity.
Qed.

(** [send], case by case on what the provider answers. *)
Lemma send_run (config : object) (messages : list Message) (w : World) :
  send api_key provider config messages w =
  let req := request api_key config messages in
  match provider req with
  | network_failure => (Thrown FetchError, post w req)
  | invalid_json_body => (Thrown SyntaxError, post w req)
  | json_body json =>
      match member json "error" with
      | None => (Thrown TypeError, post w req)
      | Some e =>
          if truthy e then (Thrown (OpenAiError (JSON_stringify json)), post w req)
          else match parse responseSchema json with
               | Some r => (Returned r, post w req)
               | None => (Thrown ZodError, post w req)
               end
      end
  end.
Proof.
  unfold send, bind, fetch_json, post. cbn zeta.
  destruct (provider (request api_key config messages)) as [ | | json]; try reflexivity.
  unfold lift. destruct (member json "error") as [e | ]; try reflexivity.
  cbn [ret]. destruct (truthy e); try reflexivity.
  destruct (parse responseSchema json); reflexivity.
Qed.

End Runs.

(** [receive] on a typed response, case by case. *)
Lemma receive_run (s : option ZodSchema) (r : Response) (w : World) :
  receive s (Response_value r) w =
  match response_choices r with
  | [] => (Thrown TypeError, w)
  | c :: _ =>
      let content := Message_content (choice_message c) in
      let w1 := warned w (choice_finish_reason c) in
      match s with
      | None => (Returned (VStr content), w1)
      | Some s =>
          match JSON_parse content with
          | None => (Exited 1, log w1 [error ("Could not parse: " ++ content)])
          | Some json =>
              match schema_parse s json with
              | Some out => (Returned out, w1)
              | None =>
                  (Exited 1,
                   log w1 [error ("Could not parse: " ++ JSON_stringify_indent2 json)])
              end
          end
      end
  end.
Proof.
  destruct r as [i m cs u]. destruct cs as [ | [msg fr] cs]; [reflexivity | ].
  cbn [response_choices choice_message choice_finish_reason].
  unfold receive, Response_value, Choice_value.
  cbn [response_choices choice_message choice_finish_reason map].
  destruct msg as [c | c [ | | tc] | c | c], fr, s as [s | ];
    cbv [bind lift member obj_get String.eqb Ascii.eqb Bool.eqb index nth
         strict_eq_str negb ret console_warn ToString Finish.to_string
         try_catch throw warned log process_exit console_error
         Message_value Message_content app];
    try reflexivity;
    destruct (JSON_parse c) as [json | ]; try reflexivity;
    destruct (schema_parse s json); reflexivity.
Qed.

Lemma validates_Response_value (r : Response) :
  validates (Response_value r) r.
Proof.
  split; [ | apply parse_Response_value].
  exists VUndefined. split; reflexivity.
Qed.

Section Query_runs.

Variable api_key : string.
Variable provider : Request -> FetchResult.
Variable userPrompt : string.
Variable config : option QueryConfig.

Lemma query_run_validated (json : value) (r : Response) (w : World) :
  provider (query_request api_key userPrompt config) = json_body json ->
  validates json r ->
  query api_key provider userPrompt config w =
  receive (config_schema config) (Response_value r)
    (post w (query_request api_key userPrompt config)).
Proof.
  intros Hp [[e [He Hf]] Hv].
  rewrite query_halves. unfold bind at 1. rewrite send_run. cbn zeta.
  fold (query_request api_key userPrompt config).
  now rewrite Hp, He, Hf, Hv.
Qed.

(** [query] returns only what [receive] returns on a typed response. *)
Lemma query_returned_inv (v : value) (w : World) :
  fst (query api_key provider userPrompt config w) = Returned v ->
  exists json r,
    provider (query_request api_key userPrompt config) = json_body json /\
    validates json r /\
    fst (receive (config_schema config) (Response_value r)
           (post w (query_request api_key userPrompt config))) = Returned v.
Proof.
  rewrite query_halves. unfold bind at 1. rewrite send_run. cbn zeta.
  fold (query_request api_key userPrompt config).
  destruct (provider _) as [ | | json] eqn:Hp; try discriminate.
  destruct (member json "error") as [e | ] eqn:He; try discriminate.
  destruct (truthy e) eqn:Hf; try discriminate.
  destruct (parse responseSchema json) as [y | ] eqn:Hv; try discriminate.
  destruct (parse_Response_inv _ _ Hv) as [r ->].
  intros H. exists json, r. repeat split; eauto.
Qed.

End Query_runs.

(* ===================================================================== *)
(** ** Objects, spread and the text of an object *)
(* ===================================================================== *)

Lemma obj_get_set (o : object) (k k' : string) (v : value) :
  obj_get (obj_set o k v) k' = if String.eqb k k' then Some v else obj_get o k'.
Proof.
  induction o as [ | [k0 v0] o IH]; cbn [obj_set obj_get].
  - reflexivity.
  - destruct (String.eqb k0 k) eqn:E0; cbn [obj_get].
    + apply String.eqb_eq in E0. subst k0. now destruct (String.eqb k k').
    + rewrite IH. destruct (String.eqb k0 k') eqn:E1; [ | reflexivity].
      apply String.eqb_eq in E1. subst k0.
      rewrite String.eqb_sym in E0. now rewrite E0.
Qed.

Lemma obj_spread_snoc (t s : object) (k : string) (v : value) :
  obj_spread t (s ++ [(k, v)])%list = obj_set (obj_spread t s) k v.
Proof. unfold obj_spread. now rewrite fold_left_app. Qed.

(** Spread, key by key: the last value the source gives a key wins, and a
    key the source does not have keeps the value of the target. *)
Lemma obj_get_spread (t s : object) (k : string) :
  obj_get (obj_spread t s) k =
  match obj_get (rev s) k with
  | Some v => Some v
  | None => obj_get t k
  end.
Proof.
  induction s as [ | [k0 v0] s IH] using rev_ind.
  - reflexivity.
  - rewrite obj_spread_snoc, obj_get_set, rev_app_distr. cbn [rev app obj_get].
    now destruct (String.eqb k0 k).
Qed.

Lemma obj_get_In (o : object) (k : string) (v : value) :
  obj_get o k = Some v -> In (k, v) o.
Proof.
  induction o as [ | [k0 v0] o IH]; cbn [obj_get]; [discriminate | ].
  destruct (String.eqb k0 k) eqn:E.
  - apply String.eqb_eq in E. subst k0. intros H; injection H as ->. now left.
  - intros H. right. now apply IH.
Qed.

Lemma obj_get_None (o : object) (k : string) :
  obj_get o k = None -> ~ In k (keys o).
Proof.
  induction o as [ | [k0 v0] o IH]; cbn [obj_get keys map fst]; [tauto | ].
  destruct (String.eqb k0 k) eqn:E; [discriminate | ].
  apply String.eqb_neq in E. intros H [H1 | H1]; [contradiction | ].
  now apply IH.
Qed.

Lemma In_keys (o : object) (k : string) (v : value) :
  In (k, v) o -> In k (keys o).
Proof. intros H. apply (in_map fst) in H. exact H. Qed.

(** In an object whose keys are all different, a key has one value. *)
Lemma obj_get_unique (o : object) (k : string) (v : value) :
  NoDup (keys o) -> In (k, v) o -> obj_get o k = Some v.
Proof.
  induction o as [ | [k0 v0] o IH]; cbn [keys map fst obj_get]; [contradiction | ].
  intros Hnd [H | H].
  - injection H as -> ->. now rewrite String.eqb_refl.
  - inversion Hnd as [ | ? ? Hnot Hnd']; subst.
    destruct (String.eqb k0 k) eqn:E.
    + apply String.eqb_eq in E. subst k0. destruct Hnot. now apply In_keys with v.
    + now apply IH.
Qed.

Lemma obj_get_rev (o : object) (k : string) :
  NoDup (keys o) -> obj_get (rev o) k = obj_get o k.
Proof.
  intros Hnd. destruct (obj_get o k) as [v | ] eqn:E.
  - apply obj_get_unique.
    + unfold keys. rewrite map_rev. now apply NoDup_rev.
    + apply in_rev. rewrite rev_involutive. now apply obj_get_In.
  - destruct (obj_get (rev o) k) as [v | ] eqn:E'; [ | reflexivity].
    apply obj_get_In, in_rev, In_keys in E'. now apply obj_get_None in E.
Qed.

Lemma keys_obj_set (o : object) (k : string) (v : value) :
  keys (obj_set o k v) = if obj_has o k then keys o else (keys o ++ [k])%list.
Proof.
  unfold obj_has.
  induction o as [ | [k0 v0] o IH]; cbn [obj_set obj_get keys map fst app].
  - reflexivity.
  - destruct (String.eqb k0 k) eqn:E; cbn [keys map fst].
    + apply String.eqb_eq in E. now subst.
    + fold (keys (obj_set o k v)). rewrite IH. fold (keys o).
      now destruct (obj_get o k).
Qed.

Lemma NoDup_obj_set (o : object) (k : string) (v : value) :
  NoDup (keys o) -> NoDup (keys (obj_set o k v)).
Proof.
  intros H. rewrite keys_obj_set. unfold obj_has.
  destruct (obj_get o k) eqn:E; [exact H | ].
  apply obj_get_None in E.
  apply NoDup_rev in H. rewrite <- (rev_involutive (keys o ++ [k])).
  apply NoDup_rev. rewrite rev_app_distr. cbn [rev app].
  constructor; [ | exact H]. now rewrite <- in_rev.
Qed.

Lemma NoDup_obj_spread (t s : object) :
  NoDup (keys t) -> NoDup (keys (obj_spread t s)).
Proof.
  intros H. induction s as [ | [k v] s IH] using rev_ind; [exact H | ].
  rewrite obj_spread_snoc. now apply NoDup_obj_set.
Qed.

(** A copy [{...o}] of an object has the members of the object. *)
Lemma obj_get_copy (o : object) (k : string) :
  NoDup (keys o) -> obj_get (obj_spread [] o) k = obj_get o k.
Proof.
  intros H. rewrite obj_get_spread, obj_get_rev by exact H.
  now destruct (obj_get o k).
Qed.

Lemma append_assoc (a b c : string) : (a ++ b) ++ c = a ++ (b ++ c).
Proof. induction a as [ | x a IH]; cbn; [reflexivity | now rewrite IH]. Qed.

Lemma join_In (sep m : string) (l : list string) :
  In m l -> exists pre post, join sep l = pre ++ m ++ post.
Proof.
  induction l as [ | x l IH]; [contradiction | ].
  intros [-> | H].
  - destruct l as [ | y l].
    + exists "", "". cbn. clear. induction m as [ | ? ? IHm]; cbn; congruence.
    + exists "", (sep ++ join sep (y :: l)). reflexivity.
  - destruct (IH H) as (pre & post & E).
    destruct l as [ | y l]; [contradiction | ].
    exists (x ++ sep ++ pre), post.
    change (join sep (x :: y :: l)) with (x ++ sep ++ join sep (y :: l)).
    now rewrite E, !append_assoc.
Qed.

Lemma serialize_object (ps : object) :
  serialize (VObj ps) = "{" ++ join "," (members ps) ++ "}".
Proof. reflexivity. Qed.

Lemma members_In (ps : object) (k : string) (v : value) :
  obj_get ps k = Some v -> v <> VUndefined ->
  In (quote k ++ ":" ++ serialize v) (members ps).
Proof.
  intros H Hv. induction ps as [ | [k0 v0] ps IH]; [discriminate | ].
  cbn [obj_get] in H. destruct (String.eqb k0 k) eqn:E.
  - apply String.eqb_eq in E. subst k0. injection H as ->.
    destruct v; try (now left). now destruct Hv.
  - specialize (IH H). destruct v0; try (now right). exact IH.
Qed.

(** A member of an object that is not [undefined] is printed in the text
    of the object, as its quoted key, a colon and its own text. *)
Lemma stringify_member (ps : object) (k : string) (v : value) :
  obj_get ps k = Some v -> v <> VUndefined ->
  exists pre post,
    JSON_stringify (VObj ps) = pre ++ (quote k ++ ":" ++ serialize v) ++ post.
Proof.
  intros H Hv.
  destruct (join_In "," _ _ (members_In _ _ _ H Hv)) as (pre & post & E).
  exists ("{" ++ pre), (post ++ "}").
  change (JSON_stringify (VObj ps)) with (serialize (VObj ps)).
  now rewrite serialize_object, E, !append_assoc.
Qed.

Lemma members_cons (k : string) (x : value) (r : object) :
  x <> VUndefined ->
  members ((k, x) :: r) = (quote k ++ ":" ++ serialize x) :: members r.
Proof. destruct x; try reflexivity. now intros []. Qed.

(* ===================================================================== *)
(** ** [JSON.parse] after [JSON.stringify] *)
(* ===================================================================== *)

(** *** String literals *)

Lemma parse_string_escape_char (c : ascii) (x : string) :
  parse_string (escape_char c ++ x) =
  match parse_string x with
  | Some (str, rest) => Some (String c str, rest)
  | None => None
  end.
Proof.
  destruct c as [[ | ] [ | ] [ | ] [ | ] [ | ] [ | ] [ | ] [ | ]];
    cbn; destruct (parse_string x) as [[str rest] | ]; reflexivity.
Qed.

Lemma parse_string_escape (s rest : string) :
  parse_string (escape s ++ dquote ++ rest) = Some (s, rest).
Proof.
  induction s as [ | c s IH]; [reflexivity | ].
  cbn [escape]. rewrite append_assoc, parse_string_escape_char, IH. reflexivity.
Qed.

(** *** Numbers *)

Lemma read_digits_app (ds rest : string) :
  all_digits ds = true -> nondigit_head rest ->
  read_digits (ds ++ rest) = (ds, rest).
Proof.
  intros Hd Hr. induction ds as [ | c ds IH]; cbn [append read_digits].
  - destruct rest as [ | c r]; [reflexivity | ]. cbn [nondigit_head] in Hr.
    cbn [read_digits]. now rewrite Hr.
  - cbn [all_digits] in Hd. apply andb_true_iff in Hd as [Hc Hd].
    now rewrite Hc, (IH Hd).
Qed.

Lemma delim_nondigit (rest : string) : delim rest -> nondigit_head rest.
Proof.
  destruct rest as [ | c r]; [trivial | ]. cbn. unfold is_digit.
  intros [H | [H | H]]; rewrite H; reflexivity.
Qed.

Lemma number_same_eq (a b : number) : number_same a b = true -> a = b.
Proof.
  destruct a as [na ia fa], b as [nb ib fb]. unfold number_same. cbn.
  intros H. apply andb_true_iff in H as [H Hf]. apply andb_true_iff in H as [Hn Hi].
  apply Bool.eqb_prop in Hn. apply String.eqb_eq in Hi, Hf. now subst.
Qed.

Lemma number_ok_inv (n : number) :
  number_ok n = true ->
  all_digits (integer_digits n) = true /\
  all_digits (fraction_digits n) = true /\
  strip_leading_zeros (integer_digits n) = integer_digits n /\
  normalize (negative n) (integer_digits n) (fraction_digits n) = n.
Proof.
  unfold number_ok. intros H.
  apply andb_true_iff in H as [H Hs]. apply andb_true_iff in H as [Hi Hf].
  apply number_same_eq in Hs. repeat split; try assumption.
  unfold normal in Hs. apply (f_equal integer_digits) in Hs. exact Hs.
Qed.

Lemma parse_unsigned_digits (neg : bool) (ints fracs rest : string) :
  all_digits ints = true -> all_digits fracs = true ->
  strip_leading_zeros ints = ints -> delim rest ->
  parse_unsigned neg
    (ints ++ fraction_text fracs ++ rest)
  = Some (normalize neg ints fracs, rest).
Proof.
  intros Hi Hf Hlz Hrest. unfold parse_unsigned.
  rewrite read_digits_app;
    [ | exact Hi | destruct fracs; [now apply delim_nondigit | reflexivity]].
  unfold fraction_text.
  rewrite Hlz, String.eqb_refl. cbn [negb].
  assert (He : match rest with
               | EmptyString => True
               | String c _ =>
                   (code c =? 46)%N = false /\
                   ((code c =? 101) || (code c =? 69))%N = false
               end).
  { destruct rest as [ | c r]; [exact I | ]. cbn in Hrest.
    destruct Hrest as [H | [H | H]]; rewrite H; split; reflexivity. }
  destruct fracs as [ | fc fr].
  - cbn [append]. destruct rest as [ | c r]; [reflexivity | ].
    destruct He as [H46 H101]. now rewrite H46, H101.
  - cbn [append]. change (code "."%char =? 46)%N with true. cbn iota.
    change (String fc (fr ++ rest)) with (String fc fr ++ rest).
    rewrite (read_digits_app _ _ Hf (delim_nondigit _ Hrest)).
    destruct rest as [ | c r]; [reflexivity | ].
    destruct He as [_ H101]. now rewrite H101.
Qed.

Lemma parse_number_to_string (n : number) (rest : string) :
  number_ok n = true -> delim rest ->
  parse_number (number_to_string n ++ rest) = Some (n, rest).
Proof.
  intros Hok Hrest.
  destruct (number_ok_inv n Hok) as (Hi & Hf & Hlz & Hnorm).
  destruct n as [neg ints fracs]. cbn [negative integer_digits fraction_digits] in *.
  unfold number_to_string. cbn [negative integer_digits fraction_digits].
  rewrite !append_assoc, <- Hnorm.
  destruct neg.
  - cbn [append parse_number]. change (code "-"%char =? 45)%N with true. cbn iota.
    now apply parse_unsigned_digits.
  - cbn [append]. rewrite <- (parse_unsigned_digits false ints fracs rest Hi Hf Hlz Hrest).
    destruct ints as [ | c r]; [discriminate | ].
    cbn [append parse_number].
    cbn [all_digits] in Hi. apply andb_true_iff in Hi as [Hc _].
    unfold is_digit in Hc. apply andb_true_iff in Hc as [H1 _]. apply N.leb_le in H1.
    destruct (N.eqb_spec (code c) 45) as [E | _]; [ | reflexivity].
    rewrite E in H1. now cbv in H1.
Qed.

(** *** Values *)

Lemma parse_value_number (f : nat) (c : ascii) (r : string) :
  is_digit c = true \/ code c = 45%N ->
  parse_value (S f) (String c r) =
  match parse_number (String c r) with
  | Some (n, rest) => Some (VNum n, rest)
  | None => None
  end.
Proof.
  intros H.
  assert (Hc : (is_digit c || (code c =? 45)%N)%bool = true).
  { destruct H as [H | H]; [now rewrite H | rewrite H; now rewrite orb_true_r]. }
  clear H. revert Hc.
  destruct c as [[ | ] [ | ] [ | ] [ | ] [ | ] [ | ] [ | ] [ | ]];
    intros Hc; try discriminate Hc; reflexivity.
Qed.

Lemma number_head (n : number) (rest : string) :
  number_ok n = true ->
  exists c r, number_to_string n ++ rest = String c r /\
              (is_digit c = true \/ code c = 45%N).
Proof.
  intros Hok. destruct (number_ok_inv n Hok) as (Hi & _ & Hlz & _).
  unfold number_to_string. destruct (negative n).
  - eexists _, _. split; [reflexivity | now right].
  - destruct (integer_digits n) as [ | c r]; [discriminate Hlz | ].
    cbn [all_digits] in Hi. apply andb_true_iff in Hi as [Hc _].
    eexists _, _. split; [reflexivity | now left].
Qed.

Lemma digit_opens (c : ascii) (r : string) :
  is_digit c = true \/ code c = 45%N -> opens (String c r).
Proof.
  intros H.
  assert (Hc : (is_digit c || (code c =? 45)%N)%bool = true).
  { destruct H as [H | H]; [now rewrite H | rewrite H; now rewrite orb_true_r]. }
  clear H. revert Hc.
  destruct c as [[ | ] [ | ] [ | ] [ | ] [ | ] [ | ] [ | ] [ | ]];
    intros Hc; try discriminate Hc; cbn; repeat split; discriminate.
Qed.

Lemma serialize_opens (v : value) (rest : string) :
  is_json v = true -> opens (serialize v ++ rest).
Proof.
  destruct v as [ | | [ | ] | n | s | l | ps]; try discriminate; intros H;
    try (cbn; repeat split; discriminate).
  cbn [serialize is_json] in *.
  destruct (number_head n rest H) as (c & r & -> & Hc). now apply digit_opens.
Qed.

Lemma skip_ws_opens (s : string) : opens s -> skip_ws s = s.
Proof.
  destruct s as [ | c r]; [reflexivity | ]. cbn. now intros [-> _].
Qed.

Lemma delim_not_ws (rest : string) : delim rest -> skip_ws rest = rest.
Proof.
  destruct rest as [ | c r]; [reflexivity | ]. cbn. unfold is_ws.
  intros [H | [H | H]]; rewrite H; reflexivity.
Qed.

Lemma is_json_defined (v : value) : is_json v = true -> v <> VUndefined.
Proof. destruct v; [discriminate | discriminate ..]. Qed.

Lemma parse_value_string (f : nat) (s rest : string) :
  parse_value (S f) (quote s ++ rest) = Some (VStr s, rest).
Proof.
  unfold quote. rewrite !append_assoc. unfold dquote at 1.
  set (tail := escape s ++ dquote ++ rest).
  assert (E : parse_string tail = Some (s, rest)) by apply parse_string_escape.
  cbn. now rewrite E.
Qed.

Lemma join_cons (sep x : string) (l : list string) :
  l <> [] -> join sep (x :: l) = x ++ sep ++ join sep l.
Proof. destruct l; [now intros [] | reflexivity]. Qed.

Lemma parse_elements_join (l : list value) :
  l <> [] ->
  Forall reads_back l ->
  forallb is_json l = true ->
  forall fuel rest,
    (list_sum (map (fun x => S (size x)) l) <= fuel)%nat ->
    parse_elements fuel (join "," (map serialize l) ++ "]" ++ rest) = Some (l, rest).
Proof.
  induction l as [ | x l IH]; [now intros [] | ].
  intros _ Hall Hjson fuel rest Hfuel.
  inversion Hall as [ | ? ? Hx Hl]; subst.
  cbn [forallb] in Hjson. apply andb_true_iff in Hjson as [Jx Jl].
  cbn [map list_sum fold_right] in Hfuel.
  destruct fuel as [ | f]; [lia | ]. cbn [parse_elements].
  destruct l as [ | y l'].
  - cbn [map join]. rewrite (Hx Jx f ("]" ++ rest)); [ | lia | cbn; tauto].
    reflexivity.
  - change (join "," (map serialize (x :: y :: l')))
      with (serialize x ++ "," ++ join "," (map serialize (y :: l'))).
    rewrite !append_assoc.
    rewrite (Hx Jx f); [ | lia | cbn; tauto].
    cbn [append skip_ws]. change (is_ws ","%char) with false. cbn iota.
    change (code ","%char =? 93)%N with false.
    change (code ","%char =? 44)%N with true. cbn iota.
    change (String "]"%char rest) with ("]" ++ rest).
    rewrite (IH ltac:(discriminate) Hl Jl f rest); [reflexivity | ].
    cbn [map list_sum fold_right] in *. lia.
Qed.

Lemma unique_fresh (acc ps : object) (k : string) (v : value) :
  unique (map fst (acc ++ (k, v) :: ps)) = true -> obj_get acc k = None.
Proof.
  induction acc as [ | [k0 v0] acc IH]; [reflexivity | ].
  cbn [app map fst unique obj_get]. intros H.
  apply andb_true_iff in H as [H0 H]. rewrite (IH H).
  destruct (String.eqb k0 k) eqn:E; [ | reflexivity].
  apply negb_true_iff in H0. rewrite map_app in H0. cbn [map fst] in H0.
  rewrite existsb_app in H0. cbn [existsb] in H0. rewrite E in H0.
  cbn in H0. now rewrite orb_true_r in H0.
Qed.

Lemma obj_set_fresh (acc : object) (k : string) (v : value) :
  obj_get acc k = None -> obj_set acc k v = (acc ++ [(k, v)])%list.
Proof.
  induction acc as [ | [k0 v0] acc IH]; [reflexivity | ].
  cbn [obj_get obj_set app]. destruct (String.eqb k0 k); [discriminate | ].
  intros H. now rewrite (IH H).
Qed.

Lemma parse_members_join (ps : object) :
  ps <> [] ->
  Forall (fun kv => reads_back (snd kv)) ps ->
  forallb (fun kv => is_json (snd kv)) ps = true ->
  forall fuel rest acc,
    (list_sum (map (fun kv => S (size (snd kv))) ps) <= fuel)%nat ->
    unique (map fst (acc ++ ps)) = true ->
    parse_members fuel (join "," (members ps) ++ "}" ++ rest) acc
    = Some ((acc ++ ps)%list, rest).
Proof.
  induction ps as [ | [k x] ps IH]; [now intros [] | ].
  intros _ Hall Hjson fuel rest acc Hfuel Huniq.
  inversion Hall as [ | ? ? Hx Hl]; subst. cbn [snd] in Hx.
  cbn [forallb snd] in Hjson. apply andb_true_iff in Hjson as [Jx Jl].
  cbn [map list_sum fold_right snd] in Hfuel.
  destruct fuel as [ | f]; [lia | ].
  rewrite members_cons by now apply is_json_defined.
  assert (Hset : obj_set acc k x = (acc ++ [(k, x)])%list)
    by (apply obj_set_fresh; now apply unique_fresh with ps x).
  assert (Hstep : forall tail,
    delim tail ->
    parse_members (S f) ((quote k ++ ":" ++ serialize x) ++ tail) acc =
    match skip_ws tail with
    | String c' r2 =>
        if (code c' =? 125)%N then Some (obj_set acc k x, r2)
        else if (code c' =? 44)%N then parse_members f r2 (obj_set acc k x)
        else None
    | EmptyString => None
    end).
  { intros tail Htail. unfold quote. rewrite !append_assoc. unfold dquote at 1.
    set (body := escape k ++ dquote ++ ":" ++ serialize x ++ tail).
    assert (E : parse_string body = Some (k, ":" ++ serialize x ++ tail))
      by apply parse_string_escape.
    cbn [parse_members append skip_ws].
    change (is_ws (ascii_of_N 34)) with false. cbn iota.
    change (code (ascii_of_N 34) =? 34)%N with true. cbn iota.
    rewrite E. cbn [append skip_ws]. change (is_ws ":"%char) with false. cbn iota.
    change (code ":"%char =? 58)%N with true. cbn iota.
    rewrite (Hx Jx f tail); [reflexivity | lia | exact Htail]. }
  destruct ps as [ | [k' x'] ps'].
  - cbn [members join]. rewrite (Hstep ("}" ++ rest)); [ | cbn; tauto].
    cbn [append skip_ws]. change (is_ws "}"%char) with false. cbn iota.
    change (code "}"%char =? 125)%N with true. cbn iota.
    now rewrite Hset.
  - set (qs := (k', x') :: ps') in *.
    assert (Hne : members qs <> []).
    { subst qs. cbn [forallb snd] in Jl. apply andb_true_iff in Jl as [Jx' _].
      rewrite members_cons by now apply is_json_defined. discriminate. }
    rewrite join_cons by exact Hne.
    rewrite (append_assoc (quote k ++ ":" ++ serialize x)).
    rewrite Hstep by (cbn; tauto).
    rewrite (append_assoc ","). cbn [append skip_ws].
    change (is_ws ","%char) with false. cbn iota.
    change (code ","%char =? 125)%N with false.
    change (code ","%char =? 44)%N with true. cbn iota.
    rewrite Hset.
    change (String "}"%char rest) with ("}" ++ rest).
    rewrite (IH ltac:(subst qs; discriminate) Hl Jl f rest).
    + now rewrite <- app_assoc.
    + unfold list_sum in *. lia.
    + now rewrite <- app_assoc.
Qed.

Lemma serialize_array (l : list value) :
  serialize (VArr l) = "[" ++ join "," (map serialize l) ++ "]".
Proof. reflexivity. Qed.

Lemma members_opens (ps : object) (rest : string) :
  ps <> [] -> forallb (fun kv => is_json (snd kv)) ps = true ->
  opens (join "," (members ps) ++ rest).
Proof.
  destruct ps as [ | [k x] ps]; [now intros [] | ]. intros _ H.
  cbn [forallb snd] in H. apply andb_true_iff in H as [Jx _].
  rewrite members_cons by now apply is_json_defined.
  destruct (members ps); cbn; repeat split; discriminate.
Qed.

Lemma elements_opens (l : list value) (rest : string) :
  l <> [] -> forallb is_json l = true ->
  opens (join "," (map serialize l) ++ rest).
Proof.
  destruct l as [ | x l]; [now intros [] | ]. intros _ H.
  cbn [forallb] in H. apply andb_true_iff in H as [Jx _].
  destruct l as [ | y l].
  - cbn [map join]. now apply serialize_opens.
  - change (join "," (map serialize (x :: y :: l)))
      with (serialize x ++ "," ++ join "," (map serialize (y :: l))).
    rewrite append_assoc. now apply serialize_opens.
Qed.

(** Every JSON value is read back from its text, whatever delimiter
    follows it. *)
Lemma parse_value_serialize (v : value) : reads_back v.
Proof.
  induction v as [ | | b | n | s | l IH | ps IH] using value_ind';
    intros Hjson fuel rest Hfuel Hrest; try discriminate;
    (destruct fuel as [ | f]; [cbn in Hfuel; lia | ]).
  - reflexivity.
  - destruct b; reflexivity.
  - cbn [serialize is_json] in *.
    destruct (number_head n rest Hjson) as (c & r & E & Hc).
    rewrite E, (parse_value_number f c r Hc), <- E.
    now rewrite parse_number_to_string.
  - apply parse_value_string.
  - rewrite serialize_array, !append_assoc. cbn [is_json] in Hjson.
    destruct l as [ | x l].
    + reflexivity.
    + set (l0 := x :: l) in *.
      assert (Hne : l0 <> []) by (subst l0; discriminate).
      assert (Hopen := elements_opens l0 ("]" ++ rest) Hne Hjson).
      assert (E : parse_elements f (join "," (map serialize l0) ++ "]" ++ rest)
                  = Some (l0, rest)).
      { apply parse_elements_join; try assumption.
        cbn [size] in Hfuel. lia. }
      destruct (join "," (map serialize l0) ++ "]" ++ rest) as [ | c r] eqn:Etext;
        [now destruct Hopen | ].
      destruct Hopen as (Hws & H93 & _).
      cbn [append parse_value skip_ws]. change (is_ws "["%char) with false. cbn iota.
      change (code "["%char =? 123)%N with false.
      change (code "["%char =? 91)%N with true. cbn iota.
      cbn [skip_ws]. rewrite Hws.
      apply N.eqb_neq in H93. rewrite H93. now rewrite E.
  - rewrite serialize_object, !append_assoc. cbn [is_json] in Hjson.
    apply andb_true_iff in Hjson as [Huniq Hjson].
    destruct ps as [ | kx ps].
    + reflexivity.
    + set (ps0 := kx :: ps) in *.
      assert (Hne : ps0 <> []) by (subst ps0; discriminate).
      assert (Hopen := members_opens ps0 ("}" ++ rest) Hne Hjson).
      assert (E : parse_members f (join "," (members ps0) ++ "}" ++ rest) []
                  = Some (ps0, rest)).
      { apply (parse_members_join ps0 Hne IH Hjson f rest []); [ | exact Huniq].
        cbn [size] in Hfuel. lia. }
      destruct (join "," (members ps0) ++ "}" ++ rest) as [ | c r] eqn:Etext;
        [now destruct Hopen | ].
      destruct Hopen as (Hws & _ & H125).
      cbn [append parse_value skip_ws]. change (is_ws "{"%char) with false. cbn iota.
      change (code "{"%char =? 123)%N with true. cbn iota.
      cbn [skip_ws]. rewrite Hws.
      apply N.eqb_neq in H125. rewrite H125. now rewrite E.
Qed.

(** *** Enough fuel *)

Lemma length_append (a b : string) :
  String.length (a ++ b) = (String.length a + String.length b)%nat.
Proof. induction a as [ | c a IH]; cbn; [reflexivity | now rewrite IH]. Qed.

Lemma append_nil_r (a : string) : a ++ "" = a.
Proof. induction a as [ | c a IH]; cbn; [reflexivity | now rewrite IH]. Qed.

Lemma length_join_bound (texts : list string) (sizes : list nat) :
  Forall2 (fun t n => (S n <= S (String.length t))%nat) texts sizes ->
  (list_sum (map S sizes) <= String.length (join "," texts) + 1)%nat.
Proof.
  induction 1 as [ | t n texts sizes Htn Hrest IH]; [cbn; lia | ].
  cbn [map list_sum fold_right]. unfold list_sum in IH.
  destruct texts as [ | t' texts'].
  - inversion Hrest; subst. cbn [join map fold_right]. lia.
  - rewrite join_cons by discriminate. rewrite !length_append. cbn [String.length]. lia.
Qed.

Lemma size_le_length (v : value) :
  is_json v = true -> (size v <= String.length (serialize v))%nat.
Proof.
  induction v as [ | | b | n | s | l IH | ps IH] using value_ind';
    intros Hjson; try discriminate.
  - cbn. lia.
  - destruct b; cbn; lia.
  - cbn [serialize is_json size] in *.
    destruct (number_head n "" Hjson) as (c & r & E & _).
    rewrite append_nil_r in E. rewrite E. cbn. lia.
  - cbn [serialize size]. unfold quote. rewrite !length_append. cbn. lia.
  - rewrite serialize_array, !length_append. cbn [size String.length is_json] in *.
    assert (H : Forall2 (fun t n => (S n <= S (String.length t))%nat)
                  (map serialize l) (map size l)).
    { induction l as [ | x l IHl]; [constructor | ].
      inversion IH; subst. cbn [forallb] in Hjson.
      apply andb_true_iff in Hjson as [Jx Jl].
      cbn [map]. constructor; [ | now apply IHl].
      specialize (H1 Jx). lia. }
    apply length_join_bound in H. rewrite map_map in H. lia.
  - rewrite serialize_object, !length_append. cbn [size String.length is_json] in *.
    apply andb_true_iff in Hjson as [_ Hjson].
    assert (H : Forall2 (fun t n => (S n <= S (String.length t))%nat)
                  (members ps) (map (fun kv => size (snd kv)) ps)).
    { induction ps as [ | [k x] ps IHps]; [constructor | ].
      inversion IH; subst. cbn [forallb snd] in Hjson.
      apply andb_true_iff in Hjson as [Jx Jl].
      rewrite members_cons by now apply is_json_defined.
      cbn [map snd]. constructor; [ | now apply IHps].
      cbn [snd] in H1. specialize (H1 Jx). rewrite !length_append. lia. }
    apply length_join_bound in H. rewrite map_map in H. lia.
Qed.

(** [JSON.parse] reads back what [JSON.stringify] wrote: on JSON values,
    parse after stringify is the identity. *)
Theorem JSON_parse_stringify (v : value) :
  is_json v = true -> JSON_parse (JSON_stringify v) = Some v.
Proof.
  intros Hjson.
  assert (E : JSON_stringify v = serialize v) by (destruct v; [discriminate | reflexivity ..]).
  rewrite E. unfold JSON_parse.
  rewrite <- (append_nil_r (serialize v)) at 2.
  rewrite (parse_value_serialize v Hjson _ ""); [reflexivity | | exact I].
  pose proof (size_le_length v Hjson). lia.
Qed.


(* ===================================================================== *)
(** ** The shape of the envelope *)
(* ===================================================================== *)

Lemma accepts_fields (data : object) (shape : list (string * ZodType)) :
  match parse_fields data shape with Some _ => true | None => false end =
  forallb (fun kt => accepts (snd kt) (prop data (fst kt))) shape.
Proof.
  induction shape as [ | [k t] shape IH]; [reflexivity | ].
  cbn [parse_fields forallb fst snd]. unfold accepts at 1.
  destruct (parse t (prop data k)); [ | reflexivity].
  rewrite <- IH. now destruct (parse_fields data shape).
Qed.

Lemma accepts_object (shape : list (string * ZodType)) (data : object) :
  accepts (z_object shape) (VObj data) =
  forallb (fun kt => accepts (snd kt) (prop data (fst kt))) shape.
Proof.
  rewrite <- accepts_fields. unfold accepts. rewrite parse_object.
  now destruct (parse_fields data shape).
Qed.

Lemma accepts_array (t : ZodType) (l : list value) :
  accepts (z_array t) (VArr l) = forallb (accepts t) l.
Proof.
  unfold accepts at 1. rewrite parse_array.
  induction l as [ | x l IH]; [reflexivity | ].
  cbn [parse_each forallb]. unfold accepts at 1.
  destruct (parse t x); [ | reflexivity].
  rewrite <- IH. now destruct (parse_each t l).
Qed.

Lemma accepts_string (v : value) : accepts z_string v = is_string v.
Proof. now destruct v. Qed.

Lemma accepts_number (v : value) : accepts z_number v = is_number v.
Proof. now destruct v. Qed.

Lemma accepts_literal (s : string) (v : value) :
  accepts (z_literal s) v = strict_eq_str v s.
Proof. unfold accepts. cbn [parse]. now destruct (strict_eq_str v s). Qed.

Lemma accepts_finish_reason (v : value) :
  accepts finishReasonSchema v = is_finish_reason v.
Proof.
  unfold accepts, finishReasonSchema, is_finish_reason. cbn [parse].
  now destruct (strict_eq_str v "stop"), (strict_eq_str v "length"),
    (strict_eq_str v "content_filter"), (strict_eq_str v "tool_calls").
Qed.

Lemma accepts_usage (v : value) : accepts usageSchema v = is_usage v.
Proof.
  destruct v as [ | | | | | | o]; try reflexivity.
  unfold usageSchema. rewrite accepts_object. cbn [forallb fst snd].
  rewrite !accepts_number, andb_true_r, andb_assoc. reflexivity.
Qed.

Lemma accepts_message (v : value) : accepts messageSchema v = is_message v.
Proof.
  destruct v as [ | | | | | | o]; try reflexivity.
  unfold accepts, messageSchema, messageSystemSchema, is_message.
  cbn [parse discriminates shape_get String.eqb Ascii.eqb Bool.eqb].
  repeat match goal with
  | |- context [strict_eq_str (prop o "role") ?s] =>
      destruct (strict_eq_str (prop o "role") s) eqn:?
  end;
  repeat match goal with
  | H : strict_eq_str _ _ = true |- _ => apply strict_eq_str_true in H
  end;
  try congruence;
  try match goal with
  | H : prop o "role" = _ |- _ => rewrite H
  end;
  cbn [strict_eq_str String.eqb Ascii.eqb Bool.eqb option_map orb andb];
  rewrite ?andb_false_r, ?andb_true_r;
  try reflexivity;
  destruct (prop o "content"); try reflexivity;
  destruct (prop o "tool_calls"); reflexivity.
Qed.

Lemma accepts_choice (v : value) : accepts choiceSchema v = is_choice v.
Proof.
  destruct v as [ | | | | | | o]; try reflexivity.
  unfold choiceSchema. rewrite accepts_object. cbn [forallb fst snd].
  now rewrite accepts_message, accepts_finish_reason, andb_true_r.
Qed.

Lemma accepts_response (v : value) : accepts responseSchema v = is_envelope v.
Proof.
  destruct v as [ | | | | | | o]; try reflexivity.
  rewrite responseSchema_eq, accepts_object. cbn [forallb fst snd].
  rewrite !accepts_string, accepts_literal, accepts_usage, andb_true_r, !andb_assoc.
  unfold is_envelope. f_equal. f_equal.
  destruct (prop o "choices") as [ | | | | | l | ]; try reflexivity.
  rewrite accepts_array.
  induction l as [ | x l IH]; [reflexivity | ].
  cbn [forallb]. now rewrite accepts_choice, IH.
Qed.

(* ===================================================================== *)
(** ** The request [query] sends *)
(* ===================================================================== *)

Lemma sent_warned (w : World) (fr : Finish.reason) : sent (warned w fr) = sent w.
Proof. now destruct fr. Qed.

(** Whatever the provider answers, [query] sends one request, the one
    named [query_request]. *)
Lemma query_sends
    (api_key : string) (provider : Request -> FetchResult)
    (userPrompt : string) (config : option QueryConfig) (w : World) :
  sent (snd (query api_key provider userPrompt config w)) =
  (sent w ++ [query_request api_key userPrompt config])%list.
Proof.
  rewrite query_halves. unfold bind at 1. rewrite send_run. cbn zeta.
  fold (query_request api_key userPrompt config).
  destruct (provider _) as [ | | json]; try reflexivity.
  destruct (member json "error") as [e | ]; try reflexivity.
  destruct (truthy e); try reflexivity.
  destruct (parse responseSchema json) as [y | ] eqn:Hv; try reflexivity.
  destruct (parse_Response_inv _ _ Hv) as [r ->].
  rewrite receive_run.
  destruct (response_choices r) as [ | c rest]; [reflexivity | ].
  cbn zeta. destruct (config_schema config) as [s | ].
  - destruct (JSON_parse _) as [parsed | ]; [destruct (schema_parse s parsed) | ];
      cbn [snd log sent]; now rewrite sent_warned.
  - cbn [snd]. now rewrite sent_warned.
Qed.

Lemma NoDup_effective_config (config : option QueryConfig) :
  NoDup (keys (effective_config config)).
Proof.
  unfold effective_config. do 3 apply NoDup_obj_spread. constructor.
Qed.

(** The members of the body, other than the messages, are those of the
    effective configuration. *)
Lemma payload_get (config : object) (messages : list Message) (k : string) :
  NoDup (keys config) ->
  obj_get (payload config messages) k =
  if String.eqb "messages" k then Some (VArr (map Message_value messages))
  else obj_get config k.
Proof.
  intros H. unfold payload. rewrite obj_get_set.
  destruct (String.eqb "messages" k); [reflexivity | now apply obj_get_copy].
Qed.

(* ===================================================================== *)
(** ** Properties of [query] and [send] *)
(* ===================================================================== *)

(** C1, as stated, fails: the value with the members [body], [punchline]
    and [rating] below satisfies the schema of the demonstration, and
    when the content is its [JSON.stringify], [query] returns it
    without the key the schema does not declare, which is not deep-equal
    to it. *)
Lemma schema_output_is_returned_counterexample :
  let V := VObj [("body", VStr "a"); ("punchline", VStr "b"); ("rating", VNum (num "5"))] in
  let returned := VObj [("body", VStr "a"); ("punchline", VStr "b")] in
  is_json V = true /\
  schema_parse jokeSchema V = Some returned /\
  fst (query "sk-test"
         (answering (Response_value (sample_response (JSON_stringify V) Finish.stop)))
         "Tell me a joke" (with_schema jokeSchema) start)
  = Returned returned /\
  deep_equal returned V = false.
Proof. vm_compute. repeat split. Qed.

(** C1, amended: when the content of the first choice is [JSON.stringify]
    of a JSON value [V] that the schema accepts, [query] returns the
    output of the schema's parse on [V] (for an object schema of zod, [V]
    without the keys the schema does not declare): [JSON.parse] after
    [JSON.stringify] is the identity on [V], and the schema has the last
    word. *)
Theorem query_returns_schema_output
    (api_key : string) (provider : Request -> FetchResult)
    (userPrompt : string) (config : option QueryConfig) (w : World)
    (json : value) (r : Response) (c : Choice) (rest : list Choice)
    (s : ZodSchema) (V out : value) :
  config_schema config = Some s ->
  provider (query_request api_key userPrompt config) = json_body json ->
  validates json r ->
  response_choices r = c :: rest ->
  Message_content (choice_message c) = JSON_stringify V ->
  is_json V = true ->
  schema_parse s V = Some out ->
  JSON_parse (JSON_stringify V) = Some V /\
  fst (query api_key provider userPrompt config w) = Returned out.
Proof.
  intros Hs Hp Hv Hc Hcontent HV Hout.
  pose proof (JSON_parse_stringify V HV) as Hround. split; [exact Hround | ].
  rewrite (query_run_validated _ _ _ _ _ _ _ Hp Hv), receive_run, Hs, Hc.
  cbn zeta. now rewrite Hcontent, Hround, Hout.
Qed.

Lemma query_returns_schema_output_witness :
  fst (query "sk-test"
         (answering (Response_value
            (sample_response
               (JSON_stringify (VObj [("body", VStr "Why?"); ("punchline", VStr "Guts.")]))
               Finish.stop)))
         "Tell me a joke" (with_schema jokeSchema) start)
  = Returned (VObj [("body", VStr "Why?"); ("punchline", VStr "Guts.")]).
Proof.
  set (V := VObj [("body", VStr "Why?"); ("punchline", VStr "Guts.")]).
  apply (query_returns_schema_output "sk-test"
           (answering (Response_value (sample_response (JSON_stringify V) Finish.stop)))
           "Tell me a joke" (with_schema jokeSchema) start
           (Response_value (sample_response (JSON_stringify V) Finish.stop))
           (sample_response (JSON_stringify V) Finish.stop)
           {| choice_message := assistant (JSON_stringify V) absent;
              choice_finish_reason := Finish.stop |}
           [] jokeSchema V V).
  - reflexivity.
  - reflexivity.
  - split; [exists VUndefined; split; reflexivity | reflexivity].
  - reflexivity.
  - reflexivity.
  - reflexivity.
  - reflexivity.
Defined.

(** C2, as stated, fails: with a schema supplied and the override
    [{response_format: undefined}], the body of the request has no
    [response_format] member. *)
Lemma undefined_response_format_counterexample :
  let config :=
    Some {| systemPrompt := None;
            openAiConfig := Some [("response_format", VUndefined)];
            schema := Some jokeSchema |} in
  let run :=
    query "sk-test"
      (answering (Response_value
         (sample_response (json_text "{'body':'Why?','punchline':'Guts.'}") Finish.stop)))
      "Tell me a joke" config start in
  fst run = Returned (VObj [("body", VStr "Why?"); ("punchline", VStr "Guts.")]) /\
  match sent (snd run) with
  | [req] =>
      String.index 0 "response_format" (body req) = None /\
      match JSON_parse (body req) with
      | Some (VObj fields) =>
          map fst fields = ["model"; "temperature"; "messages"]
      | _ => False
      end
  | _ => False
  end.
Proof. vm_compute. repeat split. Qed.

(** C2, amended: with a schema supplied, the body of the request carries
    [response_format: {type: json_object}] whatever the caller overrides,
    unless the override holds a [response_format] of its own that is not
    that value (the type of the override admits one such: [undefined]). *)
Theorem schema_forces_response_format
    (api_key : string) (provider : Request -> FetchResult)
    (userPrompt : string) (config : option QueryConfig) (w : World) (s : ZodSchema) :
  config_schema config = Some s ->
  (forall v, In ("response_format", v) (config_overrides config) -> v = json_object_format) ->
  exists req fields pre post,
    sent (snd (query api_key provider userPrompt config w)) = (sent w ++ [req])%list /\
    body req = JSON_stringify (VObj fields) /\
    obj_get fields "response_format" = Some json_object_format /\
    body req = pre ++ json_text "'response_format':{'type':'json_object'}" ++ post.
Proof.
  intros Hs Hall.
  set (fields := payload (effective_config config) (outbound_messages userPrompt config)).
  assert (Hget : obj_get fields "response_format" = Some json_object_format).
  { unfold fields. rewrite payload_get by apply NoDup_effective_config.
    cbn [String.eqb Ascii.eqb Bool.eqb].
    unfold effective_config. rewrite obj_get_spread.
    fold (config_overrides config).
    destruct (obj_get (rev (config_overrides config)) "response_format") as [v | ] eqn:E.
    - apply obj_get_In, in_rev in E. now rewrite (Hall _ E).
    - destruct config as [[p o [s' | ]] | ]; try discriminate. reflexivity. }
  destruct (stringify_member _ _ _ Hget) as (pre & post & E); [discriminate | ].
  exists (query_request api_key userPrompt config), fields, pre, post.
  split; [apply query_sends | ]. split; [reflexivity | ]. split; [exact Hget | ].
  exact E.
Qed.

Lemma schema_forces_response_format_witness :
  exists req fields pre post,
    sent (snd (query "sk-test" (answering (Response_value (sample_response "{}" Finish.stop)))
                 "Tell me a joke"
                 (Some {| systemPrompt := None;
                          openAiConfig := Some [("temperature", VNum (num "0.7"))];
                          schema := Some jokeSchema |})
                 start)) = [req] /\
    body req = JSON_stringify (VObj fields) /\
    obj_get fields "response_format" = Some json_object_format /\
    body req = pre ++ json_text "'response_format':{'type':'json_object'}" ++ post.
Proof.
  apply (schema_forces_response_format "sk-test"
           (answering (Response_value (sample_response "{}" Finish.stop)))
           "Tell me a joke"
           (Some {| systemPrompt := None;
                    openAiConfig := Some [("temperature", VNum (num "0.7"))];
                    schema := Some jokeSchema |})
           start jokeSchema).
  - reflexivity.
  - simpl. intros v [H | H]; [discriminate | contradiction].
Defined.

(** C3, as stated, fails: [send] accepts a body whose choices are empty,
    and a body whose token counts are negative or not whole. *)
Lemma envelope_accepts_counterexample :
  let usage (a b c : number) :=
    VObj [("completion_tokens", VNum a); ("prompt_tokens", VNum b);
          ("total_tokens", VNum c)] in
  let envelope (choices : list value) (u : value) :=
    VObj [("id", VStr "chatcmpl-1"); ("model", VStr "gpt-4-1106-preview");
          ("object", VStr "chat.completion"); ("choices", VArr choices); ("usage", u)] in
  let no_choice := envelope [] (usage (num "9") (num "12") (num "21")) in
  let odd_counts :=
    envelope
      [VObj [("message", VObj [("role", VStr "assistant"); ("content", VStr "Why?")]);
             ("finish_reason", VStr "stop")]]
      (usage (num "-1") (num "1.5") (num "0")) in
  fst (send "sk-test" (answering no_choice) DEFAULT_REQUEST_CONFIG [user "Tell me a joke"] start)
  = Returned no_choice /\
  fst (send "sk-test" (answering odd_counts) DEFAULT_REQUEST_CONFIG [user "Tell me a joke"] start)
  = Returned odd_counts /\
  is_negative (num "-1") = true /\ is_integer (num "1.5") = false.
Proof. vm_compute. repeat split. Qed.

(** C3, amended: the validation of the envelope accepts a body exactly
    when it has the shape [is_envelope]: strings for the identifier and
    the model, the tag, an array of choices that may be empty, each choice
    with a valid message and one of the four finish reasons, and three
    token counts that are numbers of any sign, whole or not.  What it
    returns is then a typed response; and [send], given a body whose
    [error] member is falsy, returns exactly when the body has that
    shape. *)
Theorem envelope_validation_accepts (json : value) :
  (is_envelope json = true <->
   exists r : Response, parse responseSchema json = Some (Response_value r)) /\
  (forall (api_key : string) (provider : Request -> FetchResult)
          (config : object) (messages : list Message) (w : World) (e : value),
     provider (request api_key config messages) = json_body json ->
     member json "error" = Some e ->
     truthy e = false ->
     (is_envelope json = true <->
      exists r : Response,
        fst (send api_key provider config messages w) = Returned (Response_value r))).
Proof.
  assert (H : is_envelope json = true <->
              exists r : Response, parse responseSchema json = Some (Response_value r)).
  { rewrite <- accepts_response. unfold accepts. split.
    - destruct (parse responseSchema json) as [y | ] eqn:E; [ | discriminate].
      intros _. destruct (parse_Response_inv _ _ E) as [r ->]. now exists r.
    - intros [r ->]. reflexivity. }
  split; [exact H | ].
  intros api_key provider config messages w e Hp He Hf.
  rewrite H, send_run. cbn zeta. rewrite Hp, He, Hf.
  destruct (parse responseSchema json) as [y | ]; cbn [fst]; split;
    intros [r Hr]; exists r; congruence.
Qed.

(** C4, as stated, fails: the content below is valid JSON that the
    schema rejects (it has no punchline); the process exits with status
    1, but the diagnostic shows the parsed content printed again with an
    indent of 2.  The content as received does not occur in it, and the
    value [first] of the content occurs nowhere in it. *)
Lemma diagnostic_reprints_content_counterexample :
  let content := json_text "{'body':'first','body':'second'}" in
  let diagnostic :=
    "Could not parse: {" ++ newline ++ json_text "  'body': 'second'" ++ newline ++ "}" in
  let run :=
    query "sk-test" (answering (Response_value (sample_response content Finish.stop)))
          "Tell me a joke" (with_schema jokeSchema) start in
  JSON_parse content = Some (VObj [("body", VStr "second")]) /\
  schema_parse jokeSchema (VObj [("body", VStr "second")]) = None /\
  fst run = Exited 1 /\
  console (snd run) = [error diagnostic] /\
  String.index 0 content diagnostic = None /\
  String.index 0 "first" diagnostic = None.
Proof. vm_compute. repeat split. Qed.

(** C4, amended: with a schema, when the content of the first choice is
    not valid JSON or is JSON the schema rejects, the process exits with
    status 1 and no exception reaches the caller; the one line printed
    on the way is [Could not parse: ] followed by the content itself when
    it is not valid JSON, and by the parsed content printed again with an
    indent of 2 when it is. *)
Theorem content_failure_exits
    (api_key : string) (provider : Request -> FetchResult)
    (userPrompt : string) (config : option QueryConfig) (w : World)
    (json : value) (r : Response) (c : Choice) (rest : list Choice) (s : ZodSchema) :
  config_schema config = Some s ->
  provider (query_request api_key userPrompt config) = json_body json ->
  validates json r ->
  response_choices r = c :: rest ->
  match JSON_parse (Message_content (choice_message c)) with
  | None => True
  | Some parsed => schema_parse s parsed = None
  end ->
  query api_key provider userPrompt config w =
  (Exited 1,
   log (warned (post w (query_request api_key userPrompt config)) (choice_finish_reason c))
       [error ("Could not parse: " ++
               match JSON_parse (Message_content (choice_message c)) with
               | None => Message_content (choice_message c)
               | Some parsed => JSON_stringify_indent2 parsed
               end)]).
Proof.
  intros Hs Hp Hv Hc Hbad.
  rewrite (query_run_validated _ _ _ _ _ _ _ Hp Hv), receive_run, Hs, Hc.
  cbn zeta.
  destruct (JSON_parse (Message_content (choice_message c))) as [parsed | ];
    [now rewrite Hbad | reflexivity].
Qed.

Lemma content_failure_exits_witness :
  query "sk-test" (answering (Response_value (sample_response "not json" Finish.stop)))
        "Tell me a joke" (with_schema jokeSchema) start
  = (Exited 1,
     {| console := [error "Could not parse: not json"];
        sent := [query_request "sk-test" "Tell me a joke" (with_schema jokeSchema)] |}).
Proof.
  apply (content_failure_exits "sk-test"
           (answering (Response_value (sample_response "not json" Finish.stop)))
           "Tell me a joke" (with_schema jokeSchema) start
           (Response_value (sample_response "not json" Finish.stop))
           (sample_response "not json" Finish.stop)
           {| choice_message := assistant "not json" absent;
              choice_finish_reason := Finish.stop |}
           [] jokeSchema).
  - reflexivity.
  - reflexivity.
  - split; [exists VUndefined; split; reflexivity | reflexivity].
  - reflexivity.
  - vm_compute. exact I.
Defined.

(** C5, as stated, fails: a body may contain an [error] field that is
    [null]; [send] then goes on to validate the envelope and [query]
    returns the content. *)
Lemma falsy_error_field_counterexample :
  let fields :=
    [("error", VNull);
     ("id", VStr "chatcmpl-1");
     ("model", VStr "gpt-4-1106-preview");
     ("object", VStr "chat.completion");
     ("choices",
      VArr [VObj [("message", VObj [("role", VStr "assistant");
                                    ("content", VStr "Why?")]);
                  ("finish_reason", VStr "stop")]]);
     ("usage", VObj [("completion_tokens", VNum (num "9"));
                     ("prompt_tokens", VNum (num "12"));
                     ("total_tokens", VNum (num "21"))])] in
  obj_has fields "error" = true /\
  query "sk-test" (answering (VObj fields)) "Tell me a joke" None start
  = (Returned (VStr "Why?"),
     {| console := []; sent := [query_request "sk-test" "Tell me a joke" None] |}).
Proof. vm_compute. split; reflexivity. Qed.

(** C5, amended: when the body the provider answers has an [error]
    member that is truthy, [query] fails with an [OpenAiError] whose
    message is the body, serialised; this happens whether or not the
    body has the shape of an envelope, and nothing is printed: the
    console is as it was. *)
Theorem provider_error_is_thrown
    (api_key : string) (provider : Request -> FetchResult)
    (userPrompt : string) (config : option QueryConfig) (w : World)
    (json e : value) :
  provider (query_request api_key userPrompt config) = json_body json ->
  member json "error" = Some e ->
  truthy e = true ->
  query api_key provider userPrompt config w =
  (Thrown (OpenAiError (JSON_stringify json)),
   post w (query_request api_key userPrompt config)).
Proof.
  intros Hp He Ht.
  rewrite query_halves. unfold bind. rewrite send_run. cbn zeta.
  fold (query_request api_key userPrompt config).
  now rewrite Hp, He, Ht.
Qed.

Lemma provider_error_is_thrown_witness :
  query "sk-test"
        (answering (VObj [("error", VObj [("message", VStr "Incorrect API key")])]))
        "Tell me a joke" (with_schema jokeSchema) start
  = (Thrown (OpenAiError (json_text "{'error':{'message':'Incorrect API key'}}")),
     {| console := [];
        sent := [query_request "sk-test" "Tell me a joke" (with_schema jokeSchema)] |}).
Proof.
  apply (provider_error_is_thrown "sk-test"
           (answering (VObj [("error", VObj [("message", VStr "Incorrect API key")])]))
           "Tell me a joke" (with_schema jokeSchema) start
           (VObj [("error", VObj [("message", VStr "Incorrect API key")])])
           (VObj [("message", VStr "Incorrect API key")])).
  - reflexivity.
  - reflexivity.
  - reflexivity.
Defined.

(** C6: with no schema, [query] returns exactly the content of the first
    choice's message, as the string it is: it returns [v] if and only if
    the provider's body passes [send] as a response whose first choice
    has the content [v]. *)
Theorem query_without_schema_returns_content
    (api_key : string) (provider : Request -> FetchResult)
    (userPrompt : string) (config : option QueryConfig) (w : World) (v : value) :
  config_schema config = None ->
  (fst (query api_key provider userPrompt config w) = Returned v <->
   exists json r c rest,
     provider (query_request api_key userPrompt config) = json_body json /\
     validates json r /\
     response_choices r = c :: rest /\
     v = VStr (Message_content (choice_message c))).
Proof.
  intros Hs. split.
  - intros H. apply query_returned_inv in H as (json & r & Hp & Hv & H).
    rewrite receive_run, Hs in H.
    destruct (response_choices r) as [ | c rest] eqn:Hc; try discriminate.
    cbn in H. injection H as <-.
    now exists json, r, c, rest.
  - intros (json & r & c & rest & Hp & Hv & Hc & ->).
    rewrite (query_run_validated _ _ _ _ _ _ _ Hp Hv), receive_run, Hs, Hc.
    reflexivity.
Qed.

Lemma query_without_schema_returns_content_witness :
  fst (query "sk-test" (answering (Response_value (sample_response "Why?" Finish.stop)))
         "Tell me a joke" None start)
  = Returned (VStr "Why?").
Proof.
  apply (query_without_schema_returns_content "sk-test"
           (answering (Response_value (sample_response "Why?" Finish.stop)))
           "Tell me a joke" None start (VStr "Why?")).
  - reflexivity.
  - exists (Response_value (sample_response "Why?" Finish.stop)),
      (sample_response "Why?" Finish.stop),
      {| choice_message := assistant "Why?" absent; choice_finish_reason := Finish.stop |},
      [].
    repeat split. exists VUndefined. split; reflexivity.
Defined.

(** C7, as stated, fails: a system prompt that is supplied but empty
    adds no system message; the body carries the user message alone. *)
Lemma empty_system_prompt_counterexample :
  let config :=
    Some {| systemPrompt := Some ""; openAiConfig := None; schema := None |} in
  let run := query "sk-test" (answering (Response_value (sample_response "Why?" Finish.stop)))
                   "Tell me a joke" config start in
  map body (sent (snd run)) =
  [json_text ("{'model':'gpt-4-1106-preview','temperature':0," ++
              "'messages':[{'role':'user','content':'Tell me a joke'}]}")].
Proof. vm_compute. reflexivity. Qed.

(** C7, amended: [query] sends one request, and the messages in its body
    are, in this order: the system message with the JSON instruction when
    a schema is supplied; the system message with the caller's system
    prompt when one is supplied and is not the empty string; the user
    message with [userPrompt], always there and always last.  The text of
    the body carries them as its [messages] member. *)
Theorem outbound_messages_in_order
    (api_key : string) (provider : Request -> FetchResult)
    (userPrompt : string) (config : option QueryConfig) (w : World) :
  let messages :=
    (match config_schema config with
     | Some s =>
         [system ("Only provide responses in valid JSON in terms of " ++
                  JSON_stringify (zodToJsonSchema s) ++ ".")]
     | None => []
     end ++
     match config_systemPrompt config with
     | Some p => if String.eqb p "" then [] else [system p]
     | None => []
     end ++
     [user userPrompt])%list in
  exists req fields pre post,
    sent (snd (query api_key provider userPrompt config w)) = (sent w ++ [req])%list /\
    body req = JSON_stringify (VObj fields) /\
    obj_get fields "messages" = Some (VArr (map Message_value messages)) /\
    body req =
      pre ++ (quote "messages" ++ ":" ++ serialize (VArr (map Message_value messages)))
          ++ post.
Proof.
  cbn zeta.
  set (fields := payload (effective_config config) (outbound_messages userPrompt config)).
  assert (Hget : obj_get fields "messages" =
                 Some (VArr (map Message_value (outbound_messages userPrompt config))))
    by (unfold fields; now rewrite payload_get by apply NoDup_effective_config).
  destruct (stringify_member _ _ _ Hget) as (pre & post & E); [discriminate | ].
  exists (query_request api_key userPrompt config), fields, pre, post.
  split; [apply query_sends | ]. split; [reflexivity | ]. split; [exact Hget | exact E].
Qed.



(** C9: when the first choice of the validated response has a finish
    reason other than ["stop"], [query] prints the warning and then goes
    on exactly as it does for the same response with ["stop"]: the same
    outcome, the same request, and the same console lines after the
    warning. *)
Theorem finish_reason_only_warns
    (api_key : string) (provider provider' : Request -> FetchResult)
    (userPrompt : string) (config : option QueryConfig) (w : World)
    (json : value) (r : Response) (c : Choice) (rest : list Choice) :
  provider (query_request api_key userPrompt config) = json_body json ->
  validates json r ->
  response_choices r = c :: rest ->
  choice_finish_reason c <> Finish.stop ->
  provider' (query_request api_key userPrompt config) = json_body (Response_value (stopped r)) ->
  let run := query api_key provider userPrompt config w in
  let run' := query api_key provider' userPrompt config w in
  fst run = fst run' /\
  sent (snd run) = sent (snd run') /\
  exists entries,
    console (snd run') = (console w ++ entries)%list /\
    console (snd run) =
      (console w ++
       warn ("Unexpected finish reason: " ++ Finish.to_string (choice_finish_reason c))
       :: entries)%list.
Proof.
  intros Hp Hv Hc Hfr Hp'. cbn zeta.
  rewrite (query_run_validated _ _ _ _ _ _ _ Hp Hv).
  rewrite (query_run_validated _ _ _ _ _ _ _ Hp' (validates_Response_value _)).
  rewrite !receive_run. unfold stopped. cbn [response_choices]. rewrite Hc.
  cbn [choice_message choice_finish_reason]. cbn zeta.
  set (content := Message_content (choice_message c)).
  set (w0 := post w (query_request api_key userPrompt config)).
  assert (Hw : warned w0 (choice_finish_reason c) =
               log w0 [warn ("Unexpected finish reason: " ++
                             Finish.to_string (choice_finish_reason c))])
    by (destruct (choice_finish_reason c); [now destruct Hfr | reflexivity ..]).
  rewrite Hw. cbn [warned].
  destruct (config_schema config) as [s | ].
  - destruct (JSON_parse content) as [parsed | ].
    + destruct (schema_parse s parsed).
      * repeat split. exists []. cbn. now rewrite app_nil_r.
      * repeat split. eexists. cbn. split; [reflexivity | ].
        now rewrite <- app_assoc.
    + repeat split. eexists. cbn. split; [reflexivity | ].
      now rewrite <- app_assoc.
  - repeat split. exists []. cbn. now rewrite app_nil_r.
Qed.

Lemma finish_reason_only_warns_witness :
  query "sk-test" (answering (Response_value (sample_response "Why?" Finish.length)))
        "Tell me a joke" None start
  = (Returned (VStr "Why?"),
     {| console := [warn "Unexpected finish reason: length"];
        sent := [query_request "sk-test" "Tell me a joke" None] |}) /\
  fst (query "sk-test" (answering (Response_value (sample_response "Why?" Finish.length)))
         "Tell me a joke" None start)
  = fst (query "sk-test" (answering (Response_value (sample_response "Why?" Finish.stop)))
           "Tell me a joke" None start).
Proof.
  split; [reflexivity | ].
  apply (finish_reason_only_warns "sk-test"
           (answering (Response_value (sample_response "Why?" Finish.length)))
           (answering (Response_value (sample_response "Why?" Finish.stop)))
           "Tell me a joke" None start
           (Response_value (sample_response "Why?" Finish.length))
           (sample_response "Why?" Finish.length)
           {| choice_message := assistant "Why?" absent;
              choice_finish_reason := Finish.length |}
           []).
  - reflexivity.
  - split; [exists VUndefined; split; reflexivity | reflexivity].
  - reflexivity.
  - discriminate.
  - reflexivity.
Defined.

(** C10: [query] reads the first choice only.  When the validated
    response has one, reading it does not fail and nothing else in the
    response bears on the result: any other validated response with the
    same first choice gives the same run.  When the validated response
    has no choice, [query] ends in a [TypeError] that nothing catches:
    nothing is printed and the process does not exit. *)
Theorem only_first_choice_is_read
    (api_key : string) (provider : Request -> FetchResult)
    (userPrompt : string) (config : option QueryConfig) (w : World)
    (json : value) (r : Response) :
  provider (query_request api_key userPrompt config) = json_body json ->
  validates json r ->
  match response_choices r with
  | [] =>
      query api_key provider userPrompt config w =
      (Thrown TypeError, post w (query_request api_key userPrompt config))
  | c :: _ =>
      fst (query api_key provider userPrompt config w) <> Thrown TypeError /\
      forall provider' json' r' rest',
        provider' (query_request api_key userPrompt config) = json_body json' ->
        validates json' r' ->
        response_choices r' = c :: rest' ->
        query api_key provider' userPrompt config w =
        query api_key provider userPrompt config w
  end.
Proof.
  intros Hp Hv.
  rewrite (query_run_validated _ _ _ _ _ _ _ Hp Hv), receive_run.
  destruct (response_choices r) as [ | c rest] eqn:Hc; [reflexivity | ].
  split.
  - cbn zeta. destruct (config_schema config) as [s | ]; [ | discriminate].
    destruct (JSON_parse _); [ | discriminate].
    destruct (schema_parse s _); discriminate.
  - intros provider' json' r' rest' Hp' Hv' Hc'.
    rewrite (query_run_validated _ _ _ _ _ _ _ Hp' Hv'), receive_run, Hc'.
    reflexivity.
Qed.

Lemma only_first_choice_is_read_witness :
  query "sk-test" (answering (Response_value no_choice_response)) "Tell me a joke" None start
  = (Thrown TypeError,
     {| console := []; sent := [query_request "sk-test" "Tell me a joke" None] |}).
Proof.
  apply (only_first_choice_is_read "sk-test"
           (answering (Response_value no_choice_response))
           "Tell me a joke" None start
           (Response_value no_choice_response) no_choice_response).
  - reflexivity.
  - split; [exists VUndefined; split; reflexivity | reflexivity].
Defined.

Example merged_body_text :
  map body
    (sent (snd (query "sk-test"
                  (answering (Response_value (sample_response "Why?" Finish.stop)))
                  "Tell me a joke"
                  (Some {| systemPrompt := None;
                           openAiConfig := Some [("temperature", VNum (num "0.7"))];
                           schema := None |})
                  start))) =
  [json_text ("{'model':'gpt-4-1106-preview','temperature':0.7," ++
              "'messages':[{'role':'user','content':'Tell me a joke'}]}")].
Proof. vm_compute. reflexivity. Qed.

(* ===================================================================== *)
(** ** JSON text of a value that holds [undefined] *)
(* ===================================================================== *)

Lemma to_json_object (ps : object) : to_json (VObj ps) = VObj (kept ps).
Proof. reflexivity. Qed.

Lemma kept_defined (k : string) (x : value) (r : object) :
  x <> VUndefined -> kept ((k, x) :: r) = (k, to_json x) :: kept r.
Proof. destruct x; intros H; try reflexivity. now destruct H. Qed.

Lemma to_json_defined (v : value) : to_json v <> VUndefined.
Proof. destruct v; discriminate. Qed.

Lemma serialize_to_json (v : value) : serialize (to_json v) = serialize v.
Proof.
  induction v using value_ind'; try reflexivity.
  - cbn [to_json]. rewrite !serialize_array. f_equal. f_equal. f_equal.
    rewrite map_map. induction H as [ | x l Hx _ IH]; [reflexivity | ].
    cbn [map]. now rewrite Hx, IH.
  - rewrite to_json_object, !serialize_object. f_equal. f_equal. f_equal.
    induction H as [ | [k x] r Hx _ IH]; [reflexivity | ].
    cbn [snd] in Hx.
    destruct x; try (cbn [kept members]; exact IH);
      (rewrite kept_defined by discriminate;
       rewrite !members_cons by (try discriminate; apply to_json_defined);
       now rewrite Hx, IH).
Qed.

Lemma existsb_kept (k : string) (ps : object) :
  existsb (String.eqb k) (map fst (kept ps)) = true ->
  existsb (String.eqb k) (map fst ps) = true.
Proof.
  induction ps as [ | [k' x] r IH]; [easy | ].
  destruct x; cbn [kept map fst existsb];
    try (intros H; apply IH in H; rewrite H; apply orb_true_r);
    (intros H; apply orb_true_iff in H as [H | H];
     [now rewrite H | apply IH in H; rewrite H; apply orb_true_r]).
Qed.

Lemma unique_kept (ps : object) :
  unique (map fst ps) = true -> unique (map fst (kept ps)) = true.
Proof.
  induction ps as [ | [k x] r IH]; [easy | ].
  cbn [map fst unique]. intros H. apply andb_true_iff in H as [Hk Hr].
  specialize (IH Hr).
  assert (Hc : unique (map fst ((k, to_json x) :: kept r)) = true).
  { cbn [map fst unique]. rewrite IH, andb_true_r.
    destruct (existsb (String.eqb k) (map fst (kept r))) eqn:E; [ | reflexivity].
    apply existsb_kept in E. now rewrite E in Hk. }
  destruct x; try exact Hc. exact IH.
Qed.

(** What [JSON.stringify] writes down is a JSON value. *)
Lemma is_json_to_json (v : value) : well_formed v = true -> is_json (to_json v) = true.
Proof.
  induction v using value_ind'; try reflexivity; cbn [well_formed to_json]; try easy.
  - intros Hw. cbn [is_json].
    induction H as [ | x l Hx _ IH]; [reflexivity | ].
    cbn [forallb map] in *. apply andb_true_iff in Hw as [H1 H2].
    now rewrite Hx, IH.
  - intros Hw. apply andb_true_iff in Hw as [Hu Hw].
    change (is_json (VObj (kept ps)) = true). cbn [is_json].
    rewrite (unique_kept _ Hu). cbn [andb]. clear Hu.
    induction H as [ | [k x] r Hx _ IH]; [reflexivity | ].
    cbn [forallb snd] in *. apply andb_true_iff in Hw as [H1 H2].
    specialize (IH H2). specialize (Hx H1).
    destruct x; try exact IH; cbn [kept forallb snd]; now rewrite IH, ?Hx.
Qed.

(** [JSON.parse] after [JSON.stringify], on any value but [undefined]:
    the value as JSON text keeps it. *)
Lemma JSON_parse_stringify_kept (v : value) :
  well_formed v = true -> v <> VUndefined ->
  JSON_parse (JSON_stringify v) = Some (to_json v).
Proof.
  intros Hw Hd.
  rewrite <- (JSON_parse_stringify (to_json v)) by now apply is_json_to_json.
  f_equal. destruct v; try reflexivity; try (now destruct Hd).
  - change (serialize (VArr elems) = serialize (to_json (VArr elems))).
    now rewrite serialize_to_json.
  - change (serialize (VObj props) = serialize (to_json (VObj props))).
    now rewrite serialize_to_json.
Qed.

Lemma unique_NoDup (l : list string) : NoDup l -> unique l = true.
Proof.
  induction 1 as [ | k l Hk _ IH]; [reflexivity | ].
  cbn [unique]. rewrite IH, andb_true_r.
  destruct (existsb (String.eqb k) l) eqn:E; [ | reflexivity].
  apply existsb_exists in E as (k' & Hin & E). apply String.eqb_eq in E. now subst.
Qed.


Lemma In_obj_set (o : object) (k k' : string) (v v' : value) :
  In (k', v') (obj_set o k v) -> (k', v') = (k, v) \/ In (k', v') o.
Proof.
  induction o as [ | [k0 v0] o IH]; cbn [obj_set].
  - intros [H | []]. now left.
  - destruct (String.eqb k0 k).
    + intros [H | H]; [now left | right; now right].
    + intros [H | H]; [right; now left | ].
      destruct (IH H) as [E | E]; [now left | right; now right].
Qed.

Lemma In_obj_spread (t s : object) (k : string) (v : value) :
  In (k, v) (obj_spread t s) -> In (k, v) t \/ In (k, v) s.
Proof.
  unfold obj_spread. revert t.
  induction s as [ | [k0 v0] s IH]; intros t; cbn [fold_left fst snd].
  - now left.
  - intros H. destruct (IH _ H) as [H' | H']; [ | right; now right].
    apply In_obj_set in H' as [E | H']; [right; left; now symmetry | now left].
Qed.

Lemma obj_get_kept (ps : object) (k : string) :
  NoDup (keys ps) ->
  obj_get (kept ps) k =
  match obj_get ps k with
  | Some VUndefined => None
  | Some v => Some (to_json v)
  | None => None
  end.
Proof.
  induction ps as [ | [k0 x] r IH]; [reflexivity | ].
  cbn [keys map fst]. intros Hnd. inversion Hnd as [ | ? ? Hk Hr]; subst.
  specialize (IH Hr). cbn [obj_get].
  destruct (String.eqb k0 k) eqn:E.
  - apply String.eqb_eq in E. subst k0.
    assert (Hnone : obj_get (kept r) k = None).
    { rewrite IH. destruct (obj_get r k) as [v | ] eqn:Eg; [ | reflexivity].
      apply obj_get_In, In_keys in Eg. now destruct Hk. }
    destruct x; cbn [kept obj_get]; rewrite ?String.eqb_refl; try reflexivity.
    exact Hnone.
  - destruct x; cbn [kept obj_get]; rewrite ?E; exact IH.
Qed.

(* ===================================================================== *)
(** ** What [JSON.parse] returns *)
(* ===================================================================== *)
















(* ===================================================================== *)
(** ** [JSON.parse] after [JSON.stringify] with an indent *)
(* ===================================================================== *)

Lemma serialize_indent_array (ind : string) (l : list value) :
  l <> [] ->
  serialize_indent ind (VArr l) =
  "[" ++ (newline ++ ind ++ "  ") ++
  join ("," ++ newline ++ ind ++ "  ") (map (serialize_indent (ind ++ "  ")) l) ++
  (newline ++ ind) ++ "]".
Proof.
  destruct l; [now intros [] | ]. intros _. cbn [serialize_indent].
  now rewrite !append_assoc.
Qed.

Lemma serialize_indent_object (ind : string) (ps : object) :
  members_indent (ind ++ "  ") ps <> [] ->
  serialize_indent ind (VObj ps) =
  "{" ++ (newline ++ ind ++ "  ") ++
  join ("," ++ newline ++ ind ++ "  ") (members_indent (ind ++ "  ") ps) ++
  (newline ++ ind) ++ "}".
Proof.
  intros H. cbn [serialize_indent].
  change ((fix members (ps0 : object) : list string :=
             match ps0 with
             | [] => []
             | (_, VUndefined) :: r => members r
             | (k, (VNull | VBool _ | VNum _ | VStr _ | VArr _ | VObj _) as x) :: r =>
                 (quote k ++ ": " ++ serialize_indent (ind ++ "  ") x) :: members r
             end) ps) with (members_indent (ind ++ "  ") ps).
  destruct (members_indent (ind ++ "  ") ps); [now destruct H | ].
  now rewrite !append_assoc.
Qed.

Lemma members_indent_cons (ind' k : string) (x : value) (r : object) :
  x <> VUndefined ->
  members_indent ind' ((k, x) :: r) =
  (quote k ++ ": " ++ serialize_indent ind' x) :: members_indent ind' r.
Proof. destruct x; intros H; try reflexivity. now destruct H. Qed.

Lemma blanks_app (a b : string) : blanks (a ++ b) = blanks a && blanks b.
Proof.
  induction a as [ | c a IH]; [reflexivity | ].
  cbn [append blanks]. now rewrite IH, andb_assoc.
Qed.

Lemma blanks_deeper (ind : string) : blanks ind = true -> blanks (ind ++ "  ") = true.
Proof. intros H. now rewrite blanks_app, H. Qed.

Lemma blanks_newline (ind : string) : blanks ind = true -> blanks (newline ++ ind) = true.
Proof. intros H. now rewrite blanks_app, H. Qed.

Lemma skip_ws_blanks (ws s : string) : blanks ws = true -> skip_ws (ws ++ s) = skip_ws s.
Proof.
  induction ws as [ | c ws IH]; [reflexivity | ].
  cbn [blanks]. intros H. apply andb_true_iff in H as [Hc Hws].
  cbn [append skip_ws]. rewrite Hc. now apply IH.
Qed.

Lemma parse_value_blanks (fuel : nat) (ws s : string) :
  blanks ws = true -> parse_value fuel (ws ++ s) = parse_value fuel s.
Proof.
  intros H. destruct fuel as [ | f]; [reflexivity | ].
  cbn [parse_value]. now rewrite skip_ws_blanks.
Qed.

Lemma parse_elements_blanks (fuel : nat) (ws s : string) :
  blanks ws = true -> parse_elements fuel (ws ++ s) = parse_elements fuel s.
Proof.
  intros H. destruct fuel as [ | f]; [reflexivity | ].
  cbn [parse_elements]. now rewrite parse_value_blanks.
Qed.

Lemma parse_members_blanks (fuel : nat) (ws s : string) (acc : object) :
  blanks ws = true -> parse_members fuel (ws ++ s) acc = parse_members fuel s acc.
Proof.
  intros H. destruct fuel as [ | f]; [reflexivity | ].
  cbn [parse_members]. now rewrite skip_ws_blanks.
Qed.

Lemma ends_number_end (rest : string) : ends rest -> number_end rest.
Proof.
  destruct rest as [ | c r]; [trivial | ]. cbn. unfold is_digit.
  intros [H | H]; rewrite H; repeat split.
Qed.

Lemma number_end_nondigit (rest : string) : number_end rest -> nondigit_head rest.
Proof. destruct rest as [ | c r]; [trivial | ]. cbn. tauto. Qed.

Lemma parse_unsigned_literal (neg : bool) (ints fracs rest : string) :
  all_digits ints = true -> all_digits fracs = true ->
  strip_leading_zeros ints = ints -> number_end rest ->
  parse_unsigned neg (ints ++ fraction_text fracs ++ rest)
  = Some (normalize neg ints fracs, rest).
Proof.
  intros Hi Hf Hlz Hrest. unfold parse_unsigned.
  rewrite read_digits_app;
    [ | exact Hi | destruct fracs; [now apply number_end_nondigit | reflexivity]].
  unfold fraction_text.
  rewrite Hlz, String.eqb_refl. cbn [negb].
  destruct fracs as [ | fc fr].
  - cbn [append]. destruct rest as [ | c r]; [reflexivity | ].
    destruct Hrest as (_ & H46 & H101). now rewrite H46, H101.
  - cbn [append]. change (code "."%char =? 46)%N with true. cbn iota.
    change (String fc (fr ++ rest)) with (String fc fr ++ rest).
    rewrite (read_digits_app _ _ Hf (number_end_nondigit _ Hrest)).
    destruct rest as [ | c r]; [reflexivity | ].
    destruct Hrest as (_ & _ & H101). now rewrite H101.
Qed.

Lemma parse_number_literal (n : number) (rest : string) :
  number_ok n = true -> number_end rest ->
  parse_number (number_to_string n ++ rest) = Some (n, rest).
Proof.
  intros Hok Hrest.
  destruct (number_ok_inv n Hok) as (Hi & Hf & Hlz & Hnorm).
  destruct n as [neg ints fracs]. cbn [negative integer_digits fraction_digits] in *.
  unfold number_to_string. cbn [negative integer_digits fraction_digits].
  rewrite !append_assoc, <- Hnorm.
  destruct neg.
  - cbn [append parse_number]. change (code "-"%char =? 45)%N with true. cbn iota.
    now apply parse_unsigned_literal.
  - cbn [append]. rewrite <- (parse_unsigned_literal false ints fracs rest Hi Hf Hlz Hrest).
    destruct ints as [ | c r]; [discriminate | ].
    cbn [append parse_number].
    cbn [all_digits] in Hi. apply andb_true_iff in Hi as [Hc _].
    unfold is_digit in Hc. apply andb_true_iff in Hc as [H1 _]. apply N.leb_le in H1.
    destruct (N.eqb_spec (code c) 45) as [E | _]; [ | reflexivity].
    rewrite E in H1. now cbv in H1.
Qed.

Lemma serialize_indent_opens (ind : string) (v : value) (rest : string) :
  is_json v = true -> opens (serialize_indent ind v ++ rest).
Proof.
  destruct v as [ | | [ | ] | n | s | l | ps]; try discriminate; intros H;
    try (cbn; repeat split; discriminate).
  - cbn [serialize_indent is_json] in *.
    destruct (number_head n rest H) as (c & r & -> & Hc). now apply digit_opens.
  - destruct l; cbn; repeat split; discriminate.
  - cbn [serialize_indent].
    match goal with |- context [match ?m with [] => _ | _ :: _ => _ end] => destruct m end;
      cbn; repeat split; discriminate.
Qed.

Lemma ends_newline (s : string) : ends (newline ++ s).
Proof. cbn. now right. Qed.

Lemma ends_comma (s : string) : ends ("," ++ s).
Proof. cbn. now left. Qed.

Lemma skip_ws_closing (ind rest : string) (c : ascii) :
  blanks ind = true -> is_ws c = false ->
  skip_ws ((newline ++ ind) ++ String c rest) = String c rest.
Proof.
  intros Hb Hc. rewrite skip_ws_blanks by now apply blanks_newline.
  cbn [skip_ws]. now rewrite Hc.
Qed.

Lemma parse_elements_indent (ind ind' : string) (l : list value) :
  l <> [] ->
  Forall reads_back_indented l ->
  forallb is_json l = true ->
  blanks ind = true -> blanks ind' = true ->
  forall fuel rest,
    (list_sum (map (fun x => S (size x)) l) <= fuel)%nat ->
    parse_elements fuel
      (join ("," ++ newline ++ ind') (map (serialize_indent ind') l) ++
       (newline ++ ind) ++ "]" ++ rest)
    = Some (l, rest).
Proof.
  intros Hne Hall Hjson Hind Hind'.
  induction l as [ | x l IH]; [now destruct Hne | ].
  intros fuel rest Hfuel.
  inversion Hall as [ | ? ? Hx Hl]; subst.
  cbn [forallb] in Hjson. apply andb_true_iff in Hjson as [Jx Jl].
  cbn [map list_sum fold_right] in Hfuel.
  destruct fuel as [ | f]; [lia | ]. cbn [parse_elements].
  destruct l as [ | y l'].
  - cbn [map join]. rewrite (Hx Jx ind' f); [ | exact Hind' | lia | apply ends_newline].
    change ("]" ++ rest) with (String "]"%char rest).
    rewrite skip_ws_closing by (try exact Hind; reflexivity).
    reflexivity.
  - rewrite map_cons, join_cons by discriminate.
    rewrite !append_assoc.
    rewrite (Hx Jx ind' f); [ | exact Hind' | lia | apply ends_comma].
    cbn [append skip_ws]. change (is_ws ","%char) with false. cbn iota.
    change (code ","%char =? 93)%N with false.
    change (code ","%char =? 44)%N with true. cbn iota.
    match goal with
    | |- context [parse_elements f ?t] =>
        replace t with
          ((newline ++ ind') ++
           join ("," ++ newline ++ ind') (map (serialize_indent ind') (y :: l')) ++
           (newline ++ ind) ++ "]" ++ rest)
          by (now rewrite !append_assoc)
    end.
    rewrite parse_elements_blanks by now apply blanks_newline.
    rewrite (IH ltac:(discriminate) Hl Jl f rest); [reflexivity | ].
    cbn [map list_sum fold_right] in *. lia.
Qed.

Lemma members_indent_nonempty (ind' : string) (ps : object) :
  ps <> [] -> forallb (fun kv => is_json (snd kv)) ps = true ->
  members_indent ind' ps <> [].
Proof.
  destruct ps as [ | [k x] ps]; [now intros [] | ]. intros _ H.
  cbn [forallb snd] in H. apply andb_true_iff in H as [Jx _].
  rewrite members_indent_cons by now apply is_json_defined. discriminate.
Qed.

Lemma parse_members_indent (ind ind' : string) (ps : object) :
  ps <> [] ->
  Forall (fun kv => reads_back_indented (snd kv)) ps ->
  forallb (fun kv => is_json (snd kv)) ps = true ->
  blanks ind = true -> blanks ind' = true ->
  forall fuel rest acc,
    (list_sum (map (fun kv => S (size (snd kv))) ps) <= fuel)%nat ->
    unique (map fst (acc ++ ps)) = true ->
    parse_members fuel
      (join ("," ++ newline ++ ind') (members_indent ind' ps) ++
       (newline ++ ind) ++ "}" ++ rest) acc
    = Some ((acc ++ ps)%list, rest).
Proof.
  intros Hne Hall Hjson Hind Hind'.
  induction ps as [ | [k x] ps IH]; [now destruct Hne | ].
  intros fuel rest acc Hfuel Huniq.
  inversion Hall as [ | ? ? Hx Hl]; subst. cbn [snd] in Hx.
  cbn [forallb snd] in Hjson. apply andb_true_iff in Hjson as [Jx Jl].
  cbn [map list_sum fold_right snd] in Hfuel.
  destruct fuel as [ | f]; [lia | ].
  rewrite members_indent_cons by now apply is_json_defined.
  assert (Hset : obj_set acc k x = (acc ++ [(k, x)])%list)
    by (apply obj_set_fresh; now apply unique_fresh with ps x).
  assert (Hstep : forall tail,
    ends tail ->
    parse_members (S f) ((quote k ++ ": " ++ serialize_indent ind' x) ++ tail) acc =
    match skip_ws tail with
    | String c' r2 =>
        if (code c' =? 125)%N then Some (obj_set acc k x, r2)
        else if (code c' =? 44)%N then parse_members f r2 (obj_set acc k x)
        else None
    | EmptyString => None
    end).
  { intros tail Htail. unfold quote. rewrite !append_assoc. unfold dquote at 1.
    set (body := escape k ++ dquote ++ ": " ++ serialize_indent ind' x ++ tail).
    assert (E : parse_string body = Some (k, ": " ++ serialize_indent ind' x ++ tail))
      by apply parse_string_escape.
    cbn [parse_members append skip_ws].
    change (is_ws (ascii_of_N 34)) with false. cbn iota.
    change (code (ascii_of_N 34) =? 34)%N with true. cbn iota.
    rewrite E. cbn [append skip_ws]. change (is_ws ":"%char) with false. cbn iota.
    change (code ":"%char =? 58)%N with true. cbn iota.
    change (String " "%char (serialize_indent ind' x ++ tail))
      with (" " ++ serialize_indent ind' x ++ tail).
    rewrite parse_value_blanks by reflexivity.
    rewrite (Hx Jx ind' f tail); [reflexivity | exact Hind' | lia | exact Htail]. }
  destruct ps as [ | [k' x'] ps'].
  - cbn [members_indent join]. rewrite (append_assoc newline).
    rewrite (Hstep (newline ++ ind ++ "}" ++ rest)); [ | apply ends_newline].
    rewrite <- (append_assoc newline).
    change ("}" ++ rest) with (String "}"%char rest).
    rewrite skip_ws_closing by (try exact Hind; reflexivity).
    change (code "}"%char =? 125)%N with true. cbn iota.
    now rewrite Hset.
  - set (qs := (k', x') :: ps') in *.
    assert (Hq : members_indent ind' qs <> [])
      by (apply members_indent_nonempty; [subst qs; discriminate | exact Jl]).
    rewrite join_cons by exact Hq.
    rewrite (append_assoc (quote k ++ ": " ++ serialize_indent ind' x)).
    rewrite Hstep by (rewrite !append_assoc; apply ends_comma).
    rewrite !(append_assoc ","). cbn [append skip_ws].
    change (is_ws ","%char) with false. cbn iota.
    change (code ","%char =? 125)%N with false.
    change (code ","%char =? 44)%N with true. cbn iota.
    rewrite Hset.
    match goal with
    | |- parse_members f ?t _ = _ =>
        replace t with
          ((newline ++ ind') ++
           join ("," ++ newline ++ ind') (members_indent ind' qs) ++
           (newline ++ ind) ++ "}" ++ rest)
          by (now rewrite !append_assoc)
    end.
    rewrite parse_members_blanks by now apply blanks_newline.
    rewrite (IH ltac:(subst qs; discriminate) Hl Jl f rest).
    + now rewrite <- app_assoc.
    + unfold list_sum in *. lia.
    + now rewrite <- app_assoc.
Qed.

Lemma join_opens (sep x rest : string) (l : list string) :
  (forall tail, opens (x ++ tail)) -> opens (join sep (x :: l) ++ rest).
Proof.
  intros H. destruct l as [ | y l].
  - apply H.
  - rewrite join_cons by discriminate. rewrite append_assoc. apply H.
Qed.

(** Every JSON value is read back from its indented text. *)
Lemma parse_value_serialize_indent (v : value) : reads_back_indented v.
Proof.
  induction v as [ | | b | n | s | l IH | ps IH] using value_ind';
    intros Hjson ind fuel rest Hind Hfuel Hrest; try discriminate;
    (destruct fuel as [ | f]; [cbn in Hfuel; lia | ]).
  - reflexivity.
  - destruct b; reflexivity.
  - cbn [serialize_indent is_json] in *.
    destruct (number_head n rest Hjson) as (c & r & E & Hc).
    rewrite E, (parse_value_number f c r Hc), <- E.
    now rewrite parse_number_literal by (try assumption; now apply ends_number_end).
  - apply parse_value_string.
  - cbn [is_json] in Hjson.
    destruct l as [ | x l]; [reflexivity | ].
    set (l0 := x :: l) in *.
    assert (Hne : l0 <> []) by (subst l0; discriminate).
    rewrite serialize_indent_array by exact Hne.
    assert (Hws : blanks (newline ++ ind ++ "  ") = true)
      by (apply blanks_newline; now apply blanks_deeper).
    set (ws := newline ++ ind ++ "  ") in *.
    rewrite (append_assoc "["), (append_assoc ws), !(append_assoc (join _ _)),
      (append_assoc (newline ++ ind)).
    set (J := join _ _ ++ _).
    assert (HJ : opens J).
    { subst J l0. cbn [map]. apply join_opens. intros tail.
      cbn [forallb] in Hjson. apply andb_true_iff in Hjson as [Jx _].
      now apply serialize_indent_opens. }
    assert (E : parse_elements f J = Some (l0, rest)).
    { subst J ws.
      apply (parse_elements_indent ind (ind ++ "  ") l0 Hne IH Hjson Hind
               (blanks_deeper _ Hind) f rest).
      cbn [size] in Hfuel. lia. }
    cbn [append parse_value skip_ws]. change (is_ws "["%char) with false. cbn iota.
    change (code "["%char =? 123)%N with false.
    change (code "["%char =? 91)%N with true. cbn iota.
    rewrite (skip_ws_blanks ws J), (parse_elements_blanks f ws J) by exact Hws.
    rewrite (skip_ws_opens _ HJ), E.
    destruct J as [ | c r]; [now destruct HJ | ].
    destruct HJ as (_ & H93 & _). apply N.eqb_neq in H93. now rewrite H93.
  - cbn [is_json] in Hjson. apply andb_true_iff in Hjson as [Huniq Hjson].
    destruct ps as [ | kx ps]; [reflexivity | ].
    set (ps0 := kx :: ps) in *.
    assert (Hne : ps0 <> []) by (subst ps0; discriminate).
    assert (Hq : members_indent (ind ++ "  ") ps0 <> [])
      by now apply members_indent_nonempty.
    rewrite serialize_indent_object by exact Hq.
    assert (Hws : blanks (newline ++ ind ++ "  ") = true)
      by (apply blanks_newline; now apply blanks_deeper).
    set (ws := newline ++ ind ++ "  ") in *.
    rewrite (append_assoc "{"), (append_assoc ws), !(append_assoc (join _ _)),
      (append_assoc (newline ++ ind)).
    set (J := join _ _ ++ _).
    assert (HJ : opens J).
    { subst J. destruct (members_indent (ind ++ "  ") ps0) as [ | m ms] eqn:Em;
        [now destruct Hq | ].
      apply join_opens. intros tail.
      subst ps0. destruct kx as [k x]. cbn [forallb snd] in Hjson.
      apply andb_true_iff in Hjson as [Jx _].
      rewrite members_indent_cons in Em by now apply is_json_defined.
      injection Em as <- _. cbn. repeat split; discriminate. }
    assert (E : parse_members f J [] = Some (ps0, rest)).
    { subst J ws.
      apply (parse_members_indent ind (ind ++ "  ") ps0 Hne IH Hjson Hind
               (blanks_deeper _ Hind) f rest []); [ | exact Huniq].
      cbn [size] in Hfuel. lia. }
    cbn [append parse_value skip_ws]. change (is_ws "{"%char) with false. cbn iota.
    change (code "{"%char =? 123)%N with true. cbn iota.
    rewrite (skip_ws_blanks ws J), (parse_members_blanks f ws J) by exact Hws.
    rewrite (skip_ws_opens _ HJ), E.
    destruct J as [ | c r]; [now destruct HJ | ].
    destruct HJ as (_ & _ & H125). apply N.eqb_neq in H125. now rewrite H125.
Qed.

Lemma length_join_sep_bound (sep : string) (texts : list string) (sizes : list nat) :
  (1 <= String.length sep)%nat ->
  Forall2 (fun t n => (n <= String.length t)%nat) texts sizes ->
  (list_sum (map S sizes) <= String.length (join sep texts) + 1)%nat.
Proof.
  intros Hsep. induction 1 as [ | t n texts sizes Htn Hrest IH]; [cbn; lia | ].
  cbn [map list_sum fold_right]. unfold list_sum in IH.
  destruct texts as [ | t' texts'].
  - inversion Hrest; subst. cbn [join map fold_right]. lia.
  - rewrite join_cons by discriminate. rewrite !length_append. lia.
Qed.

Lemma size_le_length_indent (v : value) :
  is_json v = true -> forall ind, (size v <= String.length (serialize_indent ind v))%nat.
Proof.
  induction v as [ | | b | n | s | l IH | ps IH] using value_ind';
    intros Hjson ind; try discriminate.
  - cbn. lia.
  - destruct b; cbn; lia.
  - cbn [serialize_indent is_json size] in *.
    destruct (number_head n "" Hjson) as (c & r & E & _).
    rewrite append_nil_r in E. rewrite E. cbn. lia.
  - cbn [serialize_indent size]. unfold quote. rewrite !length_append. cbn. lia.
  - cbn [is_json] in Hjson. destruct l as [ | x l]; [cbn; lia | ].
    set (l0 := x :: l) in *.
    rewrite serialize_indent_array by (subst l0; discriminate).
    rewrite !length_append. cbn [size String.length].
    assert (H : Forall2 (fun t n => (n <= String.length t)%nat)
                  (map (serialize_indent (ind ++ "  ")) l0) (map size l0)).
    { clearbody l0. induction l0 as [ | y l0 IHl]; [constructor | ].
      inversion IH; subst. cbn [forallb] in Hjson.
      apply andb_true_iff in Hjson as [Jy Jl].
      cbn [map]. constructor; [now apply H1 | now apply IHl]. }
    apply (length_join_sep_bound ("," ++ newline ++ ind ++ "  ")) in H;
      [ | cbn; lia].
    rewrite map_map in H. lia.
  - cbn [is_json] in Hjson. apply andb_true_iff in Hjson as [_ Hjson].
    destruct ps as [ | kx ps]; [cbn; lia | ].
    set (ps0 := kx :: ps) in *.
    rewrite serialize_indent_object
      by (apply members_indent_nonempty; [subst ps0; discriminate | exact Hjson]).
    rewrite !length_append. cbn [size String.length].
    assert (H : Forall2 (fun t n => (n <= String.length t)%nat)
                  (members_indent (ind ++ "  ") ps0) (map (fun kv => size (snd kv)) ps0)).
    { clearbody ps0. induction ps0 as [ | [k y] ps0 IHps]; [constructor | ].
      inversion IH; subst. cbn [forallb snd] in Hjson.
      apply andb_true_iff in Hjson as [Jy Jl].
      rewrite members_indent_cons by now apply is_json_defined.
      cbn [map snd]. constructor; [ | now apply IHps].
      cbn [snd] in H1. specialize (H1 Jy (ind ++ "  ")). rewrite !length_append. lia. }
    apply (length_join_sep_bound ("," ++ newline ++ ind ++ "  ")) in H;
      [ | cbn; lia].
    rewrite map_map in H. lia.
Qed.

(** [JSON.parse] reads back what [JSON.stringify(v, null, 2)] wrote. *)
Lemma JSON_parse_stringify_indent2 (v : value) :
  is_json v = true -> JSON_parse (JSON_stringify_indent2 v) = Some v.
Proof.
  intros Hjson.
  assert (E : JSON_stringify_indent2 v = serialize_indent "" v)
    by (destruct v; [discriminate | reflexivity ..]).
  rewrite E. unfold JSON_parse.
  rewrite <- (append_nil_r (serialize_indent "" v)) at 2.
  rewrite (parse_value_serialize_indent v Hjson "" _ ""); [reflexivity | reflexivity | | exact I].
  pose proof (size_le_length_indent v Hjson ""). lia.
Qed.

(* ===================================================================== *)
(** ** A schema invents nothing *)
(* ===================================================================== *)

Lemma within_array (xs ys : list value) :
  within (VArr xs) (VArr ys) = within_each xs ys.
Proof. reflexivity. Qed.

Lemma within_object (ps qs : object) :
  within (VObj ps) (VObj qs) = within_members qs ps.
Proof. reflexivity. Qed.

Lemma parse_union (options : list ZodType) (v : value) :
  parse (z_union options) v = parse_first v options.
Proof. reflexivity. Qed.

Lemma parse_discriminated (key : string) (options : list ZodType) (data : object) :
  parse (z_discriminatedUnion key options) (VObj data) =
  parse_pick (VObj data) key (prop data key) options.
Proof. reflexivity. Qed.

Lemma number_same_refl (n : number) : number_same n n = true.
Proof.
  unfold number_same. now rewrite Bool.eqb_reflx, !String.eqb_refl.
Qed.

Lemma within_undefined (y : value) : within y VUndefined = true -> y = VUndefined.
Proof. now destruct y. Qed.

(** What [parse] returns is its input less some members. *)
Lemma parse_within (t : ZodType) :
  forall v out, parse t v = Some out -> within out v = true.
Proof.
  induction t using ZodType_ind'; intros v out.
  - destruct v; try discriminate. intros H; injection H as <-. apply String.eqb_refl.
  - destruct v; try discriminate. intros H; injection H as <-. apply number_same_refl.
  - intros H. apply parse_literal_inv in H as [-> ->]. apply String.eqb_refl.
  - cbn [parse]. destruct v; try apply IHt. intros H; now injection H as <-.
  - destruct v as [ | | | | | l | ]; try discriminate.
    rewrite parse_array. destruct (parse_each t l) as [ys | ] eqn:E; try discriminate.
    intros H; injection H as <-. rewrite within_array.
    revert ys E. induction l as [ | x l IHl]; intros ys; cbn [parse_each].
    + intros E; now injection E as <-.
    + destruct (parse t x) as [y | ] eqn:Ex; try discriminate.
      destruct (parse_each t l) as [ys' | ]; try discriminate.
      intros E; injection E as <-. cbn [within_each].
      now rewrite (IHt _ _ Ex), (IHl _ eq_refl).
  - destruct v as [ | | | | | | data]; try discriminate.
    rewrite parse_object. destruct (parse_fields data shape) as [ys | ] eqn:E; try discriminate.
    intros Hout; injection Hout as <-. rewrite within_object.
    revert ys E. induction H as [ | [k t] shape Ht _ IH]; intros ys; cbn [parse_fields].
    + intros E; now injection E as <-.
    + cbn [snd] in Ht.
      destruct (parse t (prop data k)) as [y | ] eqn:Ey; try discriminate.
      destruct (parse_fields data shape) as [ys' | ]; try discriminate.
      intros E; injection E as <-. specialize (IH _ eq_refl).
      apply Ht in Ey. unfold prop, obj_has in *.
      destruct (obj_get data k) as [x | ] eqn:Ex.
      * cbn [orb within_members]. now rewrite Ex, Ey, IH.
      * apply within_undefined in Ey. subst y. exact IH.
  - rewrite parse_union. induction H as [ | t options Ht _ IH]; [discriminate | ].
    cbn [parse_first]. destruct (parse t v) as [y | ] eqn:Ey; [ | exact IH].
    intros E; injection E as <-. now apply Ht.
  - destruct v as [ | | | | | | data]; try discriminate.
    rewrite parse_discriminated. induction H as [ | t options Ht _ IH]; [discriminate | ].
    cbn [parse_pick]. destruct (discriminates key t (prop data key)); [apply Ht | exact IH].
Qed.

(* ===================================================================== *)
(** ** How a call of [query] ends *)
(* ===================================================================== *)


Lemma console_warned (w : World) (fr : Finish.reason) :
  console (warned w fr) =
  (console w ++
   match fr with
   | Finish.stop => []
   | _ => [warn ("Unexpected finish reason: " ++ Finish.to_string fr)]
   end)%list.
Proof. destruct fr; cbn; now rewrite ?app_nil_r. Qed.

Lemma sent_post_warned (w : World) (req : Request) (fr : Finish.reason) :
  sent (warned (post w req) fr) = (sent w ++ [req])%list.
Proof. now destruct fr. Qed.

Lemma transport_error_inv
    (api_key : string) (provider : Request -> FetchResult)
    (userPrompt : string) (config : option QueryConfig) (w : World) (e : Exn) :
  fst (query api_key provider userPrompt config w) = Thrown e ->
  (e = FetchError -> provider (query_request api_key userPrompt config) = network_failure) /\
  (e = SyntaxError -> provider (query_request api_key userPrompt config) = invalid_json_body).
Proof.
  rewrite query_halves. unfold bind. rewrite send_run. cbn zeta.
  fold (query_request api_key userPrompt config).
  destruct (provider _) as [ | | json].
  - intros H; injection H as <-. split; [reflexivity | discriminate].
  - intros H; injection H as <-. split; [discriminate | reflexivity].
  - destruct (member json "error") as [e0 | ];
      [ | intros H; injection H as <-; split; discriminate].
    destruct (truthy e0); [intros H; injection H as <-; split; discriminate | ].
    destruct (parse responseSchema json) as [y | ] eqn:Hv;
      [ | intros H; injection H as <-; split; discriminate].
    destruct (parse_Response_inv _ _ Hv) as [r ->]. rewrite receive_run.
    destruct (response_choices r) as [ | c rest];
      [intros H; injection H as <-; split; discriminate | ].
    cbn zeta. destruct (config_schema config) as [s | ]; [ | discriminate].
    destruct (JSON_parse _) as [V | ]; [destruct (schema_parse s V) | ]; discriminate.
Qed.

(** X1: a request that fails before the body is validated rejects the
    promise of [query], whether or not a schema is supplied: with the
    error of [fetch] exactly when the network fails or the timeout
    strikes, with a [SyntaxError] exactly when the body is not JSON (the
    [SyntaxError] of a content that is not JSON never reaches the
    caller), with a [TypeError] when the body is [null].  One request
    has been sent, nothing is printed and the process does not exit. *)
Theorem request_failure_rejects
    (api_key : string) (provider : Request -> FetchResult)
    (userPrompt : string) (config : option QueryConfig) (w : World) :
  let req := query_request api_key userPrompt config in
  let run := query api_key provider userPrompt config w in
  (provider req = network_failure <-> run = (Thrown FetchError, post w req)) /\
  (provider req = invalid_json_body <-> run = (Thrown SyntaxError, post w req)) /\
  (provider req = json_body VNull -> run = (Thrown TypeError, post w req)).
Proof.
  cbn zeta.
  assert (Hrun : forall answer,
            provider (query_request api_key userPrompt config) = answer ->
            match answer with
            | network_failure =>
                query api_key provider userPrompt config w =
                (Thrown FetchError, post w (query_request api_key userPrompt config))
            | invalid_json_body =>
                query api_key provider userPrompt config w =
                (Thrown SyntaxError, post w (query_request api_key userPrompt config))
            | json_body json =>
                json = VNull ->
                query api_key provider userPrompt config w =
                (Thrown TypeError, post w (query_request api_key userPrompt config))
            end).
  { intros answer Hp. rewrite query_halves. unfold bind. rewrite send_run. cbn zeta.
    fold (query_request api_key userPrompt config). rewrite Hp.
    destruct answer as [ | | json]; try reflexivity. now intros ->. }
  split; [ | split].
  - split; [apply (Hrun network_failure) | ].
    intros H. apply (f_equal fst) in H. now apply transport_error_inv in H as [H _]; auto.
  - split; [apply (Hrun invalid_json_body) | ].
    intros H. apply (f_equal fst) in H. now apply transport_error_inv in H as [_ H]; auto.
  - intros Hp. now apply (Hrun (json_body VNull)).
Qed.

(** X2: [query] rejects its promise with the error of zod exactly when
    the body has no truthy [error] and has not the shape of the
    envelope.  The [try] of [query] does not reach around [send]:
    nothing is printed and the process does not exit, with or without a
    schema; and a value that the caller's schema rejects never shows as
    this error. *)
Theorem invalid_envelope_rejects
    (api_key : string) (provider : Request -> FetchResult)
    (userPrompt : string) (config : option QueryConfig) (w : World) :
  let req := query_request api_key userPrompt config in
  (exists json e,
     provider req = json_body json /\
     member json "error" = Some e /\
     truthy e = false /\
     is_envelope json = false) <->
  query api_key provider userPrompt config w = (Thrown ZodError, post w req).
Proof.
  cbn zeta. rewrite query_halves. unfold bind. rewrite send_run. cbn zeta.
  fold (query_request api_key userPrompt config).
  split.
  - intros (json & e & Hp & He & Hf & Hen). rewrite Hp, He, Hf.
    rewrite <- accepts_response in Hen. unfold accepts in Hen.
    now destruct (parse responseSchema json).
  - destruct (provider _) as [ | | json]; try discriminate.
    destruct (member json "error") as [e | ] eqn:He; try discriminate.
    destruct (truthy e) eqn:Hf; try discriminate.
    destruct (parse responseSchema json) as [y | ] eqn:Hv.
    + destruct (parse_Response_inv _ _ Hv) as [r ->]. rewrite receive_run.
      destruct (response_choices r) as [ | c rest]; [discriminate | ].
      cbn zeta. destruct (config_schema config) as [s | ]; [ | discriminate].
      destruct (JSON_parse _) as [V | ]; [destruct (schema_parse s V) | ]; discriminate.
    + intros _. exists json, e. repeat split; try assumption.
      rewrite <- accepts_response. unfold accepts. now rewrite Hv.
Qed.

Lemma invalid_envelope_rejects_witness :
  query "sk-test" (answering tool_call_answer) "Tell me a joke" (with_schema jokeSchema) start
  = (Thrown ZodError,
     {| console := [];
        sent := [query_request "sk-test" "Tell me a joke" (with_schema jokeSchema)] |}).
Proof.
  apply (invalid_envelope_rejects "sk-test" (answering tool_call_answer) "Tell me a joke"
           (with_schema jokeSchema) start).
  exists tool_call_answer, VUndefined. repeat split.
Defined.

(** X3: what [send] returns is the body the provider answered, less the
    members the envelope does not declare, and nothing else: it is a
    typed response, and validating it again returns it unchanged. *)
Theorem send_returns_body_less_undeclared
    (api_key : string) (provider : Request -> FetchResult)
    (config : object) (messages : list Message) (w : World) (out : value) :
  fst (send api_key provider config messages w) = Returned out ->
  exists json r,
    provider (request api_key config messages) = json_body json /\
    within out json = true /\
    out = Response_value r /\
    parse responseSchema out = Some out.
Proof.
  rewrite send_run. cbn zeta.
  destruct (provider _) as [ | | json]; try discriminate.
  destruct (member json "error") as [e | ]; try discriminate.
  destruct (truthy e); try discriminate.
  destruct (parse responseSchema json) as [y | ] eqn:Hv; try discriminate.
  intros H; injection H as <-.
  destruct (parse_Response_inv _ _ Hv) as [r ->].
  exists json, r. repeat split.
  - now apply (parse_within responseSchema).
  - apply parse_Response_value.
Qed.

Lemma send_returns_body_less_undeclared_witness :
  exists json r,
    answering verbose_answer (request "sk-test" DEFAULT_REQUEST_CONFIG [user "Tell me a joke"])
      = json_body json /\
    within (Response_value (sample_response "Why?" Finish.stop)) json = true /\
    Response_value (sample_response "Why?" Finish.stop) = Response_value r /\
    parse responseSchema (Response_value (sample_response "Why?" Finish.stop))
      = Some (Response_value (sample_response "Why?" Finish.stop)).
Proof.
  apply (send_returns_body_less_undeclared "sk-test" (answering verbose_answer)
           DEFAULT_REQUEST_CONFIG [user "Tell me a joke"] start).
  vm_compute. reflexivity.
Defined.

(** X4: with a schema, [query] returns [out] exactly when the body passes
    [send] as a response whose first choice has a content that is JSON
    text, for a value that the schema's parse maps to [out]. *)
Theorem query_with_schema_returns
    (api_key : string) (provider : Request -> FetchResult)
    (userPrompt : string) (config : option QueryConfig) (w : World)
    (s : ZodSchema) (out : value) :
  config_schema config = Some s ->
  (fst (query api_key provider userPrompt config w) = Returned out <->
   exists json r c rest V,
     provider (query_request api_key userPrompt config) = json_body json /\
     validates json r /\
     response_choices r = c :: rest /\
     JSON_parse (Message_content (choice_message c)) = Some V /\
     schema_parse s V = Some out).
Proof.
  intros Hs. split.
  - intros H. apply query_returned_inv in H as (json & r & Hp & Hv & H).
    rewrite receive_run, Hs in H.
    destruct (response_choices r) as [ | c rest] eqn:Hc; try discriminate.
    cbn zeta in H.
    destruct (JSON_parse (Message_content (choice_message c))) as [V | ] eqn:HV;
      try discriminate.
    destruct (schema_parse s V) as [y | ] eqn:Hy; try discriminate.
    cbn in H. injection H as <-.
    now exists json, r, c, rest, V.
  - intros (json & r & c & rest & V & Hp & Hv & Hc & HV & Hout).
    rewrite (query_run_validated _ _ _ _ _ _ _ Hp Hv), receive_run, Hs, Hc.
    cbn zeta. now rewrite HV, Hout.
Qed.

Lemma query_with_schema_returns_witness :
  fst (query "sk-test"
         (answering (Response_value
            (sample_response (json_text " { 'punchline': 'No guts.', 'body': 'Why?' } ")
               Finish.stop)))
         "Tell me a joke" (with_schema jokeSchema) start)
  = Returned (VObj [("body", VStr "Why?"); ("punchline", VStr "No guts.")]).
Proof.
  apply (query_with_schema_returns "sk-test"
           (answering (Response_value
              (sample_response (json_text " { 'punchline': 'No guts.', 'body': 'Why?' } ")
                 Finish.stop)))
           "Tell me a joke" (with_schema jokeSchema) start jokeSchema
           (VObj [("body", VStr "Why?"); ("punchline", VStr "No guts.")]) eq_refl).
  exists (Response_value
            (sample_response (json_text " { 'punchline': 'No guts.', 'body': 'Why?' } ")
               Finish.stop)),
    (sample_response (json_text " { 'punchline': 'No guts.', 'body': 'Why?' } ") Finish.stop),
    {| choice_message :=
         assistant (json_text " { 'punchline': 'No guts.', 'body': 'Why?' } ") absent;
       choice_finish_reason := Finish.stop |},
    [],
    (VObj [("punchline", VStr "No guts."); ("body", VStr "Why?")]).
  repeat split. exists VUndefined. split; reflexivity.
Defined.

(** X5: [query] makes the process exit exactly when a schema is
    supplied, the body passes [send] as a response with a first choice,
    and the content of that choice is not JSON text or is JSON text for
    a value the schema rejects; the status is then 1. *)
Theorem query_exits_iff
    (api_key : string) (provider : Request -> FetchResult)
    (userPrompt : string) (config : option QueryConfig) (w : World) (status : Z) :
  fst (query api_key provider userPrompt config w) = Exited status <->
  status = 1 /\
  exists s json r c rest,
    config_schema config = Some s /\
    provider (query_request api_key userPrompt config) = json_body json /\
    validates json r /\
    response_choices r = c :: rest /\
    match JSON_parse (Message_content (choice_message c)) with
    | Some V => schema_parse s V = None
    | None => True
    end.
Proof.
  split.
  - rewrite query_halves. unfold bind. rewrite send_run. cbn zeta.
    fold (query_request api_key userPrompt config).
    destruct (provider _) as [ | | json] eqn:Hp; try discriminate.
    destruct (member json "error") as [e | ] eqn:He; try discriminate.
    destruct (truthy e) eqn:Hf; try discriminate.
    destruct (parse responseSchema json) as [y | ] eqn:Hv; try discriminate.
    destruct (parse_Response_inv _ _ Hv) as [r ->]. rewrite receive_run.
    destruct (response_choices r) as [ | c rest] eqn:Hc; [discriminate | ].
    cbn zeta. destruct (config_schema config) as [s | ] eqn:Hs; [ | discriminate].
    assert (Hval : validates json r) by (split; [now exists e | exact Hv]).
    destruct (JSON_parse (Message_content (choice_message c))) as [V | ] eqn:HV.
    + destruct (schema_parse s V) eqn:Hout; [discriminate | ].
      intros H; injection H as <-. split; [reflexivity | ].
      exists s, json, r, c, rest. rewrite HV.
      split; [reflexivity | ]. split; [reflexivity | ]. split; [exact Hval | ].
      split; [exact Hc | exact Hout].
    + intros H; injection H as <-. split; [reflexivity | ].
      exists s, json, r, c, rest. rewrite HV.
      split; [reflexivity | ]. split; [reflexivity | ]. split; [exact Hval | ].
      split; [exact Hc | exact I].
  - intros (-> & s & json & r & c & rest & Hs & Hp & Hv & Hc & Hbad).
    rewrite (query_run_validated _ _ _ _ _ _ _ Hp Hv), receive_run, Hs, Hc.
    cbn zeta.
    destruct (JSON_parse (Message_content (choice_message c))) as [V | ];
      [now rewrite Hbad | reflexivity].
Qed.

Lemma query_exits_iff_witness :
  fst (query "sk-test" (answering (Response_value (sample_response "{" Finish.length)))
         "Tell me a joke" (with_schema jokeSchema) start)
  = Exited 1.
Proof.
  apply (query_exits_iff "sk-test"
           (answering (Response_value (sample_response "{" Finish.length)))
           "Tell me a joke" (with_schema jokeSchema) start 1).
  split; [reflexivity | ].
  exists jokeSchema, (Response_value (sample_response "{" Finish.length)),
    (sample_response "{" Finish.length),
    {| choice_message := assistant "{" absent; choice_finish_reason := Finish.length |},
    [].
  repeat split. exists VUndefined. split; reflexivity.
Defined.

(** X6: what a call of [query] prints, and how it ends.  When it throws,
    it has printed nothing.  When it returns, it has printed at most the
    warning about the finish reason, which names one of [length],
    [content_filter] and [tool_calls]: no other reason passes [send].  It
    makes the process exit only with status 1, only when a schema is
    supplied, and only after printing one diagnostic that starts with
    [Could not parse: ], which is then the last line. *)
Theorem query_console_discipline
    (api_key : string) (provider : Request -> FetchResult)
    (userPrompt : string) (config : option QueryConfig) (w : World) :
  let run := query api_key provider userPrompt config w in
  let warning (entries : list LogEntry) :=
    entries = [] \/
    exists reason,
      reason <> Finish.stop /\
      entries = [warn ("Unexpected finish reason: " ++ Finish.to_string reason)] in
  match fst run with
  | Thrown _ => console (snd run) = console w
  | Returned _ =>
      exists entries,
        console (snd run) = (console w ++ entries)%list /\ warning entries
  | Exited status =>
      status = 1 /\
      config_schema config <> None /\
      exists entries text,
        console (snd run) =
          (console w ++ entries ++ [error ("Could not parse: " ++ text)])%list /\
        warning entries
  end.
Proof.
  cbn zeta. rewrite query_halves. unfold bind. rewrite send_run. cbn zeta.
  destruct (provider _) as [ | | json]; try reflexivity.
  destruct (member json "error") as [e | ]; try reflexivity.
  destruct (truthy e); try reflexivity.
  destruct (parse responseSchema json) as [y | ] eqn:Hv; try reflexivity.
  destruct (parse_Response_inv _ _ Hv) as [r ->].
  rewrite receive_run.
  destruct (response_choices r) as [ | c rest]; [reflexivity | ].
  cbn zeta.
  assert (Hw : exists entries,
             console (warned (post w (request api_key (effective_config config)
                                        (outbound_messages userPrompt config)))
                        (choice_finish_reason c)) = (console w ++ entries)%list /\
             (entries = [] \/
              exists reason,
                reason <> Finish.stop /\
                entries = [warn ("Unexpected finish reason: " ++ Finish.to_string reason)])).
  { rewrite console_warned. cbn [post console]. eexists. split; [reflexivity | ].
    destruct (choice_finish_reason c);
      [now left | right; eexists; split; [ | reflexivity]; discriminate ..]. }
  destruct Hw as (entries & Hc & Hw).
  destruct (config_schema config) as [s | ].
  - destruct (JSON_parse _) as [parsed | ]; [destruct (schema_parse s parsed) | ];
      cbn [fst snd log console].
    + now exists entries.
    + split; [reflexivity | ]. split; [discriminate | ].
      exists entries. eexists. rewrite Hc, <- app_assoc. split; [reflexivity | exact Hw].
    + split; [reflexivity | ]. split; [discriminate | ].
      exists entries. eexists. rewrite Hc, <- app_assoc. split; [reflexivity | exact Hw].
  - cbn [fst snd]. now exists entries.
Qed.





(* ===================================================================== *)
(** ** The request on the wire *)
(* ===================================================================== *)

Lemma well_formed_Message_value (m : Message) : well_formed (Message_value m) = true.
Proof. destruct m as [c | c [ | | tc] | c | c]; reflexivity. Qed.

Lemma to_json_outbound_messages (userPrompt : string) (config : option QueryConfig) :
  map to_json (map Message_value (outbound_messages userPrompt config)) =
  map Message_value (outbound_messages userPrompt config).
Proof.
  unfold outbound_messages.
  destruct (config_schema config), (config_systemPrompt config) as [p | ];
    try destruct (String.eqb p ""); reflexivity.
Qed.

Lemma well_formed_config (config : option QueryConfig) (k : string) (v : value) :
  (forall key x, In (key, x) (config_overrides config) -> well_formed x = true) ->
  In (k, v) (effective_config config) -> well_formed v = true.
Proof.
  intros Hall H. unfold effective_config in H.
  apply In_obj_spread in H as [H | H]; [ | now apply (Hall k)].
  apply In_obj_spread in H as [H | H].
  - apply In_obj_spread in H as [[] | H].
    destruct H as [H | [H | []]]; injection H as <- <-; reflexivity.
  - destruct (config_schema config); [ | destruct H].
    destruct H as [H | []]. now injection H as <- <-.
Qed.

Lemma well_formed_payload (userPrompt : string) (config : option QueryConfig) :
  (forall key x, In (key, x) (config_overrides config) -> well_formed x = true) ->
  well_formed (VObj (payload (effective_config config)
                       (outbound_messages userPrompt config))) = true.
Proof.
  intros Hall. cbn [well_formed]. apply andb_true_iff. split.
  - apply unique_NoDup. unfold payload. apply NoDup_obj_set, NoDup_obj_spread. constructor.
  - apply forallb_forall. intros [k v] Hin. cbn [snd].
    unfold payload in Hin. apply In_obj_set in Hin as [E | Hin].
    + injection E as -> ->. cbn [well_formed]. apply forallb_forall.
      intros x Hx. apply in_map_iff in Hx as (m & <- & _). apply well_formed_Message_value.
    + apply In_obj_spread in Hin as [[] | Hin]. now apply (well_formed_config config k).
Qed.

(** X9: the body of the request is JSON text, and the provider that
    decodes it reads the messages as [query] built them, and each member
    of the merged configuration as it was merged; a member that holds
    [undefined] is not there. *)
Theorem request_body_decodes
    (api_key userPrompt : string) (config : option QueryConfig) :
  (forall key x, In (key, x) (config_overrides config) -> well_formed x = true) ->
  exists fields,
    JSON_parse (body (query_request api_key userPrompt config)) = Some (VObj fields) /\
    obj_get fields "messages" =
      Some (VArr (map Message_value (outbound_messages userPrompt config))) /\
    forall key, key <> "messages" ->
      obj_get fields key =
      match obj_get (effective_config config) key with
      | Some VUndefined => None
      | Some v => Some (to_json v)
      | None => None
      end.
Proof.
  intros Hall.
  set (fields := payload (effective_config config) (outbound_messages userPrompt config)).
  assert (Hnd : NoDup (keys fields))
    by (unfold fields, payload; apply NoDup_obj_set, NoDup_obj_spread; constructor).
  exists (kept fields). split; [ | split].
  - cbn [query_request request body]. fold fields.
    rewrite JSON_parse_stringify_kept; [reflexivity | | discriminate].
    now apply well_formed_payload.
  - rewrite obj_get_kept by exact Hnd. unfold fields.
    rewrite payload_get by apply NoDup_effective_config.
    cbn [String.eqb Ascii.eqb Bool.eqb to_json].
    now rewrite to_json_outbound_messages.
  - intros key Hkey. rewrite obj_get_kept by exact Hnd. unfold fields.
    rewrite payload_get by apply NoDup_effective_config.
    destruct (String.eqb "messages" key) eqn:E; [ | reflexivity].
    apply String.eqb_eq in E. now destruct Hkey.
Qed.

Lemma request_body_decodes_witness :
  exists fields,
    JSON_parse (body (query_request "sk-test" "Tell me a joke"
                        (with_overrides (Some jokeSchema)
                           [("temperature", VNum (num "0.7")); ("top_p", VUndefined)])))
      = Some (VObj fields) /\
    obj_get fields "temperature" = Some (VNum (num "0.7")) /\
    obj_get fields "top_p" = None /\
    obj_get fields "model" = Some (VStr "gpt-4-1106-preview").
Proof.
  destruct (request_body_decodes "sk-test" "Tell me a joke"
              (with_overrides (Some jokeSchema)
                 [("temperature", VNum (num "0.7")); ("top_p", VUndefined)]))
    as (fields & Hparse & _ & Hget).
  - intros key x [H | [H | []]]; injection H as <- <-; reflexivity.
  - exists fields. split; [exact Hparse | ].
    split; [ | split].
    + apply (Hget "temperature"). discriminate.
    + apply (Hget "top_p"). discriminate.
    + apply (Hget "model"). discriminate.
Defined.

(** X10: the text of the body when the caller overrides nothing: the
    defaults [model] and [temperature: 0] (a falsy value, sent all the
    same), the structured-output flag when a schema is supplied, and
    the messages, each with its content escaped as a JSON string. *)
Theorem default_body_text (api_key userPrompt : string) (config : option QueryConfig) :
  config_overrides config = [] ->
  body (query_request api_key userPrompt config) =
  json_text "{'model':'gpt-4-1106-preview','temperature':0" ++
  match config_schema config with
  | Some _ => json_text ",'response_format':{'type':'json_object'}"
  | None => ""
  end ++
  json_text ",'messages':[" ++
  match config_schema config with
  | Some s =>
      json_text "{'role':'system','content':" ++
      quote ("Only provide responses in valid JSON in terms of " ++
             JSON_stringify (zodToJsonSchema s) ++ ".") ++ "},"
  | None => ""
  end ++
  match config_systemPrompt config with
  | Some p =>
      if String.eqb p "" then ""
      else json_text "{'role':'system','content':" ++ quote p ++ "},"
  | None => ""
  end ++
  json_text "{'role':'user','content':" ++ quote userPrompt ++ "}]}".
Proof.
  intros Hov. unfold query_request, effective_config. rewrite Hov.
  unfold outbound_messages, instruction.
  destruct (config_schema config) as [s | ], (config_systemPrompt config) as [p | ];
    try destruct (String.eqb p "");
    cbn; repeat (rewrite !append_assoc; cbn [append]); reflexivity.
Qed.

Lemma default_body_text_witness :
  body (query_request "sk-test" ("Say " ++ dquote ++ "hi" ++ dquote)
          (Some {| systemPrompt := Some "Be brief"; openAiConfig := None; schema := None |})) =
  json_text ("{'model':'gpt-4-1106-preview','temperature':0,'messages':[" ++
             "{'role':'system','content':'Be brief'}," ++
             "{'role':'user','content':'Say \'hi\''}]}").
Proof.
  apply (default_body_text "sk-test" ("Say " ++ dquote ++ "hi" ++ dquote)
           (Some {| systemPrompt := Some "Be brief"; openAiConfig := None; schema := None |})).
  reflexivity.
Defined.

(** X11: the API key goes nowhere but into the [Authorization] header.
    Two runs that differ in the key alone, to which the provider answers
    the same, end the same, print the same, and send the same body to
    the same address. *)
Theorem api_key_stays_in_header
    (key key' : string) (provider provider' : Request -> FetchResult)
    (userPrompt : string) (config : option QueryConfig) (w : World) :
  provider (query_request key userPrompt config) =
  provider' (query_request key' userPrompt config) ->
  let run := query key provider userPrompt config w in
  let run' := query key' provider' userPrompt config w in
  fst run = fst run' /\
  console (snd run) = console (snd run') /\
  map body (sent (snd run)) = map body (sent (snd run')) /\
  map url (sent (snd run)) = map url (sent (snd run')).
Proof.
  intros Hp. cbn zeta. rewrite !query_halves. unfold bind. rewrite !send_run. cbn zeta.
  fold (query_request key userPrompt config) (query_request key' userPrompt config).
  rewrite <- Hp.
  assert (Hpost : forall A (o : Outcome A),
            fst (o, post w (query_request key userPrompt config)) =
            fst (o, post w (query_request key' userPrompt config)) /\
            console (snd (o, post w (query_request key userPrompt config))) =
            console (snd (o, post w (query_request key' userPrompt config))) /\
            map body (sent (snd (o, post w (query_request key userPrompt config)))) =
            map body (sent (snd (o, post w (query_request key' userPrompt config)))) /\
            map url (sent (snd (o, post w (query_request key userPrompt config)))) =
            map url (sent (snd (o, post w (query_request key' userPrompt config))))).
  { intros A o. cbn [fst snd post console sent]. rewrite !map_app. now repeat split. }
  destruct (provider _) as [ | | json]; try apply Hpost.
  destruct (member json "error") as [e | ]; try apply Hpost.
  destruct (truthy e); try apply Hpost.
  destruct (parse responseSchema json) as [y | ] eqn:Hv; try apply Hpost.
  destruct (parse_Response_inv _ _ Hv) as [r ->].
  rewrite !receive_run.
  destruct (response_choices r) as [ | c rest]; [apply Hpost | ].
  cbn zeta.
  assert (Hw : forall k,
            console (warned (post w (query_request k userPrompt config))
                       (choice_finish_reason c)) =
            console (warned w (choice_finish_reason c)) /\
            sent (warned (post w (query_request k userPrompt config))
                    (choice_finish_reason c)) =
            (sent w ++ [query_request k userPrompt config])%list).
  { intros k. now destruct (choice_finish_reason c). }
  destruct (Hw key) as [Hc Hs], (Hw key') as [Hc' Hs'].
  destruct (config_schema config) as [s | ].
  - destruct (JSON_parse _) as [parsed | ]; [destruct (schema_parse s parsed) | ];
      cbn [fst snd log console sent]; rewrite Hc, Hc', Hs, Hs', !map_app; now repeat split.
  - cbn [fst snd]. rewrite Hc, Hc', Hs, Hs', !map_app. now repeat split.
Qed.

Lemma api_key_stays_in_header_witness :
  let run := query "sk-one" (answering rate_limit_answer) "Tell me a joke" None start in
  let run' := query "sk-two" (answering rate_limit_answer) "Tell me a joke" None start in
  fst run = fst run' /\
  console (snd run) = console (snd run') /\
  map body (sent (snd run)) = map body (sent (snd run')) /\
  map url (sent (snd run)) = map url (sent (snd run')).
Proof.
  apply (api_key_stays_in_header "sk-one" "sk-two" (answering rate_limit_answer)
           (answering rate_limit_answer) "Tell me a joke" None start).
  reflexivity.
Defined.

(* ===================================================================== *)
(** ** [config.ts] *)
(* ===================================================================== *)

(** X12: the key is the value of the environment variable
    [OPENAI_API_KEY] when it is set and not empty; when it is missing or
    empty, loading the module throws an error with the message
    [Provide OPENAI_API_KEY as an env var]. *)
Theorem api_key_from_environment (env : string -> option string) :
  (forall key,
     OPENAI_API_KEY env = inr key <-> env "OPENAI_API_KEY" = Some key /\ key <> "") /\
  (forall message,
     OPENAI_API_KEY env = inl message <->
     message = "Provide OPENAI_API_KEY as an env var" /\
     (env "OPENAI_API_KEY" = None \/ env "OPENAI_API_KEY" = Some "")).
Proof.
  unfold OPENAI_API_KEY, OPENAI_API_KEY_VAR_NAME. cbn [truthy].
  destruct (env "OPENAI_API_KEY") as [k | ].
  - destruct (String.eqb k "") eqn:E; cbn [negb].
    + apply String.eqb_eq in E. subst k. split.
      * intros key. split; [discriminate | ]. intros [H Hk]. injection H as <-. now destruct Hk.
      * intros message. split.
        -- intros H. injection H as <-. split; [reflexivity | now right].
        -- intros [-> _]. reflexivity.
    + apply String.eqb_neq in E. split.
      * intros key. split.
        -- intros H. injection H as <-. now split.
        -- intros [H _]. now injection H as <-.
      * intros message. split; [discriminate | ].
        intros [_ [H | H]]; [discriminate | ]. injection H as ->. now destruct E.
  - split.
    + intros key. split; [discriminate | ]. intros [H _]. discriminate.
    + intros message. split.
      * intros H. injection H as <-. split; [reflexivity | now left].
      * intros [-> _]. reflexivity.
Qed.

(* ===================================================================== *)
(** ** [example.ts] *)
(* ===================================================================== *)

(** What the schema of the demonstration returns: the two members it
    declares, both strings. *)
Lemma jokeSchema_output (V out : value) :
  schema_parse jokeSchema V = Some out ->
  exists body punchline,
    out = VObj [("body", VStr body); ("punchline", VStr punchline)].
Proof.
  unfold jokeSchema, schema_of. cbn [schema_parse].
  destruct V as [ | | | | | | o]; try discriminate.
  rewrite parse_object. cbn [parse_fields].
  destruct (parse z_string (prop o "body")) as [a | ] eqn:Ea; try discriminate.
  destruct (parse z_string (prop o "punchline")) as [b | ] eqn:Eb; try discriminate.
  apply parse_string_inv in Ea as [x [_ ->]].
  apply parse_string_inv in Eb as [y [_ ->]].
  rewrite !included_defined by discriminate.
  intros H; injection H as <-. now exists x, y.
Qed.

Lemma main_run (api_key : string) (provider : Request -> FetchResult) :
  main api_key provider blank =
  match query api_key provider "Tell me a joke" None start with
  | (Returned untyped, w1) =>
      let printed := [untyped; VStr (repeat "-" 80)] in
      match query api_key provider "Tell me a joke" (with_schema jokeSchema) w1 with
      | (Returned typed, w2) =>
          (Returned tt,
           {| world := w2; logged := (printed ++ [stringify_indent2 typed])%list |})
      | (Thrown e, w2) => (Thrown e, {| world := w2; logged := printed |})
      | (Exited st, w2) => (Exited st, {| world := w2; logged := printed |})
      end
  | (Thrown e, w1) => (Thrown e, {| world := w1; logged := [] |})
  | (Exited st, w1) => (Exited st, {| world := w1; logged := [] |})
  end.
Proof.
  unfold main, and_then, await, console_log, blank, with_schema.
  cbn [world logged app].
  destruct (query api_key provider "Tell me a joke" None start) as [[untyped | e | st] w1];
    try reflexivity.
  cbn [world logged app].
  destruct (query api_key provider "Tell me a joke" _ w1) as [[typed | e | st] w2];
    reflexivity.
Qed.

Lemma example_shape_sent (api_key : string) (provider : Request -> FetchResult) :
  let first := query_request api_key "Tell me a joke" None in
  let second := query_request api_key "Tell me a joke" (with_schema jokeSchema) in
  sent (world (snd (main api_key provider blank))) = [first] \/
  sent (world (snd (main api_key provider blank))) = [first; second].
Proof.
  cbn zeta. rewrite main_run.
  pose proof (query_sends api_key provider "Tell me a joke" None start) as H1.
  destruct (query api_key provider "Tell me a joke" None start) as [[untyped | e | st] w1];
    cbn [snd sent start app] in H1; try (left; exact H1).
  cbn zeta.
  pose proof (query_sends api_key provider "Tell me a joke" (with_schema jokeSchema) w1) as H2.
  destruct (query api_key provider "Tell me a joke" (with_schema jokeSchema) w1)
    as [[typed | e | st] w2];
    cbn [snd world] in *; right; now rewrite H2, H1.
Qed.

(** X13: when the provider answers the first request with a joke and the
    second with JSON text that the schema accepts, the script sends the
    two requests in this order and prints three values: the joke as it
    came, a line of 80 dashes, and the typed joke as indented JSON text
    with the members [body] and [punchline] and no other, whatever else
    the content held; [JSON.parse] reads that text back to the typed
    joke. *)
Theorem example_prints_both_jokes
    (api_key : string) (provider : Request -> FetchResult)
    (json json' : value) (r r' : Response) (c c' : Choice) (rest rest' : list Choice)
    (V out : value) :
  let first := query_request api_key "Tell me a joke" None in
  let second := query_request api_key "Tell me a joke" (with_schema jokeSchema) in
  provider first = json_body json ->
  validates json r ->
  response_choices r = c :: rest ->
  provider second = json_body json' ->
  validates json' r' ->
  response_choices r' = c' :: rest' ->
  JSON_parse (Message_content (choice_message c')) = Some V ->
  schema_parse jokeSchema V = Some out ->
  exists body punchline text,
    out = VObj [("body", VStr body); ("punchline", VStr punchline)] /\
    within out V = true /\
    text = "{" ++ newline ++
           json_text "  'body': " ++ quote body ++ "," ++ newline ++
           json_text "  'punchline': " ++ quote punchline ++ newline ++
           "}" /\
    JSON_parse text = Some out /\
    fst (main api_key provider blank) = Returned tt /\
    logged (snd (main api_key provider blank)) =
      [VStr (Message_content (choice_message c)); VStr (repeat "-" 80); VStr text] /\
    sent (world (snd (main api_key provider blank))) = [first; second].
Proof.
  cbn zeta. intros Hp Hv Hc Hp' Hv' Hc' HV Hout.
  destruct (jokeSchema_output _ _ Hout) as (body & punchline & ->).
  exists body, punchline. eexists. split; [reflexivity | ].
  split; [now apply (parse_within _ _ _ Hout) | ].
  split; [reflexivity | ].
  assert (Etext : "{" ++ newline ++
                  json_text "  'body': " ++ quote body ++ "," ++ newline ++
                  json_text "  'punchline': " ++ quote punchline ++ newline ++ "}"
                  = JSON_stringify_indent2
                      (VObj [("body", VStr body); ("punchline", VStr punchline)])).
  { cbn. repeat (rewrite !append_assoc; cbn [append]). reflexivity. }
  split; [rewrite Etext; now apply JSON_parse_stringify_indent2 | ].
  rewrite main_run.
  rewrite (query_run_validated _ _ _ _ _ _ _ Hp Hv), receive_run, Hc. cbn zeta.
  cbn [config_schema].
  rewrite (query_run_validated _ _ _ _ _ _ _ Hp' Hv'), receive_run, Hc'. cbn zeta.
  cbn [config_schema with_schema schema]. rewrite HV, Hout.
  cbn [fst snd logged world app]. split; [reflexivity | ].
  split.
  - cbn [stringify_indent2]. now rewrite Etext.
  - rewrite sent_post_warned, sent_post_warned. reflexivity.
Qed.

Lemma example_prints_both_jokes_witness :
  fst (main "sk-test" joker blank) = Returned tt /\
  logged (snd (main "sk-test" joker blank)) =
    [VStr "Why? No guts.";
     VStr "--------------------------------------------------------------------------------";
     VStr (json_text ("{" ++ newline ++ "  'body': 'Why?'," ++ newline ++
                      "  'punchline': 'No guts.'" ++ newline ++ "}"))].
Proof.
  destruct (example_prints_both_jokes "sk-test" joker
              (Response_value (sample_response "Why? No guts." Finish.stop))
              (Response_value
                 (sample_response (json_text "{'body':'Why?','punchline':'No guts.'}")
                    Finish.stop))
              (sample_response "Why? No guts." Finish.stop)
              (sample_response (json_text "{'body':'Why?','punchline':'No guts.'}") Finish.stop)
              {| choice_message := assistant "Why? No guts." absent;
                 choice_finish_reason := Finish.stop |}
              {| choice_message :=
                   assistant (json_text "{'body':'Why?','punchline':'No guts.'}") absent;
                 choice_finish_reason := Finish.stop |}
              [] []
              (VObj [("body", VStr "Why?"); ("punchline", VStr "No guts.")])
              (VObj [("body", VStr "Why?"); ("punchline", VStr "No guts.")]))
    as (body & punchline & text & Hout & _ & Htext & _ & Hret & Hlog & _).
  - reflexivity.
  - split; [exists VUndefined; split; reflexivity | reflexivity].
  - reflexivity.
  - reflexivity.
  - split; [exists VUndefined; split; reflexivity | reflexivity].
  - reflexivity.
  - reflexivity.
  - reflexivity.
  - injection Hout as <- <-. subst text. split; [exact Hret | exact Hlog].
Defined.


(** X15: the script runs only with a key: when [OPENAI_API_KEY] is
    missing or empty, loading [config.ts] throws and nothing runs; and
    when the script runs, every request it sends is a POST to the
    completions address with a JSON content type, the key of the
    environment as bearer token, and a timeout of ten seconds. *)
Theorem script_loads_key_then_runs
    (env : string -> option string) (provider : Request -> FetchResult) :
  match script env provider with
  | inl message =>
      message = "Provide OPENAI_API_KEY as an env var" /\
      (env "OPENAI_API_KEY" = None \/ env "OPENAI_API_KEY" = Some "")
  | inr (_, terminal) =>
      exists key,
        env "OPENAI_API_KEY" = Some key /\ key <> "" /\
        sent (world terminal) <> [] /\
        Forall (fun req =>
                  url req = "https://api.openai.com/v1/chat/completions" /\
                  method req = "POST" /\
                  headers req = [("Content-Type", "application/json");
                                 ("Authorization", "Bearer " ++ key)] /\
                  timeout_ms req = 10000)
               (sent (world terminal))
  end.
Proof.
  unfold script, OPENAI_API_KEY, OPENAI_API_KEY_VAR_NAME. cbn [truthy].
  destruct (env "OPENAI_API_KEY") as [key | ]; [ | split; [reflexivity | now left]].
  destruct (String.eqb key "") eqn:E; cbn [negb].
  { apply String.eqb_eq in E. subst key. split; [reflexivity | now right]. }
  apply String.eqb_neq in E.
  destruct (main key provider blank) as [o terminal] eqn:Hrun.
  exists key. split; [reflexivity | ]. split; [exact E | ].
  pose proof (example_shape_sent key provider) as H. rewrite Hrun in H. cbn [snd] in H.
  destruct H as [-> | ->]; (split; [discriminate | ]); repeat constructor.
Qed.
